(** * Arcade Football 1v1: simulation driver, match orchestrator, AI policy
      and replay player

    A shallow embedding of [physicsWorker.js] (the fixed-rate Box2D worker)
    and of the match, AI and replay code of [main.js].

    Numbers.  JavaScript numbers are modelled as exact rationals [Q]: the
    properties below are about comparisons, branches and accumulators, not
    about binary64 rounding (and [Q] has no NaN).  Objects used as maps
    ([bodies], the per-tick snapshot, [aiProfiles], [localStorage]) are
    [gmap string _]; the numeric ids [1] and [2] are the property keys
    ["1"] and ["2"], exactly as JavaScript coerces them. *)

From Stdlib Require Import QArith Qround Lqa ZArith Lia String Ascii List.
From stdpp Require Import base option list gmap strings pretty.

Local Open Scope string_scope.
Local Open Scope list_scope.
Local Open Scope Q_scope.

(** ** JavaScript numeric primitives used by the sources *)

Module JS.

(** [a < b] on numbers. *)
Definition ltb (a b : Q) : bool := negb (Qle_bool b a).
(** [a <= b] on numbers. *)
Definition leb (a b : Q) : bool := Qle_bool a b.

Definition Math_abs (a : Q) : Q := if ltb a 0 then - a else a.
Definition Math_max (a b : Q) : Q := if ltb a b then b else a.
Definition Math_min (a b : Q) : Q := if ltb b a then b else a.
Definition Math_ceil (a : Q) : Z := Qceiling a.
Definition Math_floor (a : Q) : Z := Qfloor a.

End JS.

(** ** Data shared by the worker and the page *)

(** One entry of the state snapshot: [{x, y, vx, vy}]. *)
Module BodyState.
Record t := mk { x : Q; y : Q; vx : Q; vy : Q }.
End BodyState.

(** The input object [{left, right, jump, super}] sent with an
    ['input'] message. *)
Module Input.
Record t := mk { left : bool; right : bool; jump : bool; super : bool }.
Definition idle : t := mk false false false false.
End Input.

(** Messages the worker posts to the page. *)
Inductive WorkerMsg :=
| MsgGoal (scorer : string)
| MsgState (state : gmap string BodyState.t).

(** Messages the page posts to the worker. *)
Inductive PageMsg :=
| MsgInput (id : string) (input : Input.t)
| MsgReset
| MsgSuper (id : string).

(** ** The part of Box2D the worker calls

    Box2D is an external engine; a body is modelled by the fields the
    worker reads and writes, with the documented meaning of each call. *)

Module Box2D.

Record b2Vec2 := mkVec { get_x : Q; get_y : Q }.

Record b2Body := mkBody {
  m_position : b2Vec2;
  m_angle : Q;
  m_linearVelocity : b2Vec2;
  m_angularVelocity : Q;
  m_mass : Q
}.

Definition GetPosition (b : b2Body) : b2Vec2 := m_position b.
Definition GetLinearVelocity (b : b2Body) : b2Vec2 := m_linearVelocity b.
Definition GetMass (b : b2Body) : Q := m_mass b.

Definition SetTransform (p : b2Vec2) (angle : Q) (b : b2Body) : b2Body :=
  mkBody p angle (m_linearVelocity b) (m_angularVelocity b) (m_mass b).

Definition SetLinearVelocity (v : b2Vec2) (b : b2Body) : b2Body :=
  mkBody (m_position b) (m_angle b) v (m_angularVelocity b) (m_mass b).

Definition SetAngularVelocity (w : Q) (b : b2Body) : b2Body :=
  mkBody (m_position b) (m_angle b) (m_linearVelocity b) w (m_mass b).

(** [ApplyLinearImpulse(impulse, body.GetWorldCenter(), true)]: applied at
    the centre of mass, the impulse adds [impulse / mass] to the linear
    velocity and nothing to the angular velocity. *)
Definition ApplyLinearImpulse_center (impulse : b2Vec2) (b : b2Body) : b2Body :=
  let v := m_linearVelocity b in
  SetLinearVelocity
    (mkVec (get_x v + get_x impulse / m_mass b)
           (get_y v + get_y impulse / m_mass b)) b.

End Box2D.

(** ** physicsWorker.js *)

Module Worker.
Import Box2D.

Definition WORLD_WIDTH : Q := 10.
Definition WORLD_HEIGHT : Q := 5.
Definition GRAVITY : Q := -9.81.
Definition PLAYER_RADIUS : Q := 0.3.
Definition BALL_RADIUS : Q := 0.11.

(** The worker's mutable state: the [bodies] object and, as a log, the
    messages handed to [postMessage] so far (oldest first). *)
Record State := mkState {
  bodies : gmap string b2Body;
  posted : list WorkerMsg
}.

(** A statement either completes or throws (a method call on
    [undefined]); what it wrote before throwing stays written. *)
Inductive Completion (A : Type) :=
| Normal (a : A)
| TypeError.
Arguments Normal {A} a.
Arguments TypeError {A}.

Definition W (A : Type) : Type := State -> Completion A * State.

Definition ret {A} (a : A) : W A := fun s => (Normal a, s).

Definition bind {A B} (m : W A) (k : A -> W B) : W B :=
  fun s =>
    match m s with
    | (Normal a, s') => k a s'
    | (TypeError, s') => (TypeError, s')
    end.

Notation "x <- m ;; k" := (bind m (fun x => k))
  (at level 100, m at next level, right associativity).
Notation "m ;;; k" := (bind m (fun _ => k))
  (at level 100, right associativity).

(** [bodies[key]] followed by a method call: throws when the property is
    [undefined]. *)
Definition body (key : string) : W b2Body :=
  fun s =>
    match bodies s !! key with
    | Some b => (Normal b, s)
    | None => (TypeError, s)
    end.

(** A mutating method call on the object already read from [bodies[key]]. *)
Definition call (key : string) (method : b2Body -> b2Body) : W unit :=
  fun s => (Normal tt, mkState (alter method key (bodies s)) (posted s)).

Definition postMessage (m : WorkerMsg) : W unit :=
  fun s => (Normal tt, mkState (bodies s) (posted s ++ [m])).

Definition resetPositions : W unit :=
  _ <- body "ball" ;;
  call "ball" (SetTransform (mkVec (WORLD_WIDTH / 2) (WORLD_HEIGHT - 1)) 0) ;;;
  call "ball" (SetLinearVelocity (mkVec 0 0)) ;;;
  call "ball" (SetAngularVelocity 0) ;;;
  _ <- body "1" ;;
  call "1" (SetTransform (mkVec 2 1) 0) ;;;
  call "1" (SetLinearVelocity (mkVec 0 0)) ;;;
  _ <- body "2" ;;
  call "2" (SetTransform (mkVec (WORLD_WIDTH - 2) 1) 0) ;;;
  call "2" (SetLinearVelocity (mkVec 0 0)).

(** The entry [{x, y, vx, vy}] built for one body. *)
Definition entry (b : b2Body) : BodyState.t :=
  let pos := GetPosition b in
  let vel := GetLinearVelocity b in
  BodyState.mk (get_x pos) (get_y pos) (get_x vel) (get_y vel).

(** The [for (const key in bodies)] loop. *)
Definition snapshot : W (gmap string BodyState.t) :=
  fun s => (Normal (entry <$> bodies s), s).

Definition handleInput (id : string) (input : Input.t) : W unit :=
  fun s =>
    match bodies s !! id with
    | None => (Normal tt, s)
    | Some b =>
        let vel := GetLinearVelocity b in
        let speed : Q := 4 in
        let vx :=
          if Input.left input && negb (Input.right input) then - speed
          else if Input.right input && negb (Input.left input) then speed
          else 0 in
        (call id (SetLinearVelocity (mkVec vx (get_y vel))) ;;;
         if Input.jump input then
           let pos := GetPosition b in
           if JS.leb (get_y pos) (PLAYER_RADIUS + 0.05)
              && JS.ltb (JS.Math_abs (get_y vel)) 0.1 then
             let jumpImpulse : Q := 6.2 in
             let impulse := mkVec 0 (jumpImpulse * GetMass b) in
             call id (ApplyLinearImpulse_center impulse)
           else ret tt
         else ret tt) s
    end.

Definition superJump (id : string) : W unit :=
  fun s =>
    match bodies s !! id with
    | None => (Normal tt, s)
    | Some b =>
        let mass := GetMass b in
        let impulseMag : Q := 12.0 in
        let impulse := mkVec 0 (impulseMag * mass) in
        call id (ApplyLinearImpulse_center impulse) s
    end.

(** [self.onmessage]. *)
Definition onmessage (data : PageMsg) : W unit :=
  match data with
  | MsgInput id input => handleInput id input
  | MsgReset => resetPositions
  | MsgSuper id => superJump id
  end.

Section Driver.

(** [world.Step(dt, velocityIterations, positionIterations)]: the engine's
    integrator, acting on the bodies of the world. *)
Variable world_Step : Q -> Z -> Z -> gmap string b2Body -> gmap string b2Body.

Definition Step (dt : Q) (vIter pIter : Z) : W unit :=
  fun s => (Normal tt, mkState (world_Step dt vIter pIter (bodies s)) (posted s)).

(** The value of [goal] after the two comparisons. *)
Definition detectGoal (ballX : Q) : option string :=
  if JS.ltb ballX (-0.5) then Some "right"
  else if JS.ltb (WORLD_WIDTH + 0.5) ballX then Some "left"
  else None.

Definition stepWorld : W unit :=
  Step (1 / 120) 8 3 ;;;
  ball <- body "ball" ;;
  let ballPos := GetPosition ball in
  let goal := detectGoal (get_x ballPos) in
  match goal with
  | Some scorer => postMessage (MsgGoal scorer) ;;; resetPositions
  | None => ret tt
  end ;;;
  state <- snapshot ;;
  postMessage (MsgState state).

(** The worker's event loop: the 120 Hz timer and the messages of the
    page.  A handler that throws is abandoned; the loop goes on. *)
Inductive Event :=
| Tick
| Receive (data : PageMsg).

Definition handle (e : Event) (s : State) : State :=
  match e with
  | Tick => snd (stepWorld s)
  | Receive data => snd (onmessage data s)
  end.

Definition run (events : list Event) (s : State) : State :=
  foldl (fun s e => handle e s) s events.

Fixpoint tickCount (events : list Event) : nat :=
  match events with
  | [] => 0
  | Tick :: rest => S (tickCount rest)
  | Receive _ :: rest => tickCount rest
  end.

End Driver.

(** The world that [setupWorld] builds: the ball at the centre top and the
    players at their starting offsets, all at rest.  The masses approximate
    those of discs with the fixture densities. *)
Definition createBody (px py mass : Q) : b2Body :=
  mkBody (mkVec px py) 0 (mkVec 0 0) 0 mass.

Definition setupWorld : gmap string b2Body :=
  <["2" := createBody (WORLD_WIDTH - 2) 1 0.28]>
  (<["1" := createBody 2 1 0.28]>
  (<["ball" := createBody (WORLD_WIDTH / 2) (WORLD_HEIGHT - 1) 0.019]> ∅)).

(** The messages a handler posts when run on the bodies [bs]. *)
Definition emitted (handler : W unit) (bs : gmap string b2Body) : list WorkerMsg :=
  posted (snd (handler (mkState bs []))).

(** The three bodies that [setupWorld] creates are present. *)
Definition complete (bs : gmap string b2Body) : Prop :=
  is_Some (bs !! "ball") /\ is_Some (bs !! "1") /\ is_Some (bs !! "2").

(** The seven calls of [resetPositions], in order, as one map update. *)
Definition resetBodies (bs : gmap string b2Body) : gmap string b2Body :=
  alter (SetLinearVelocity (mkVec 0 0)) "2"
  (alter (SetTransform (mkVec (WORLD_WIDTH - 2) 1) 0) "2"
  (alter (SetLinearVelocity (mkVec 0 0)) "1"
  (alter (SetTransform (mkVec 2 1) 0) "1"
  (alter (SetAngularVelocity 0) "ball"
  (alter (SetLinearVelocity (mkVec 0 0)) "ball"
  (alter (SetTransform (mkVec (WORLD_WIDTH / 2) (WORLD_HEIGHT - 1)) 0) "ball"
     bs)))))).

(** A stand-in for the engine on concrete worlds: every body moves along
    its velocity for [dt], without gravity or contacts. *)
Definition drift (dt : Q) (vIter pIter : Z) (bs : gmap string b2Body)
  : gmap string b2Body :=
  (fun b =>
     let p := GetPosition b in
     let v := GetLinearVelocity b in
     SetTransform (mkVec (Qred (get_x p + get_x v * dt))
                         (Qred (get_y p + get_y v * dt))) (m_angle b) b) <$> bs.

(** The world of [setupWorld] with the ball moved to height 1 at [px],
    flying horizontally at [vx]. *)
Definition ballAt (px vx : Q) : gmap string b2Body :=
  <["ball" := mkBody (mkVec px 1) 0 (mkVec vx 0) 0 0.019]> setupWorld.

(** The ball of a snapshot lies within the goal lines. *)
Definition inBounds (snap : gmap string BodyState.t) : Prop :=
  exists e, snap !! "ball" = Some e
            /\ -0.5 <= BodyState.x e <= WORLD_WIDTH + 0.5.

(** What [resetPositions] makes of the body stored under [key]. *)
Definition resetBody (key : string) (b : b2Body) : b2Body :=
  if String.eqb key "ball" then
    SetAngularVelocity 0 (SetLinearVelocity (mkVec 0 0)
      (SetTransform (mkVec (WORLD_WIDTH / 2) (WORLD_HEIGHT - 1)) 0 b))
  else if String.eqb key "1" then
    SetLinearVelocity (mkVec 0 0) (SetTransform (mkVec 2 1) 0 b)
  else if String.eqb key "2" then
    SetLinearVelocity (mkVec 0 0) (SetTransform (mkVec (WORLD_WIDTH - 2) 1) 0 b)
  else b.

(** A snapshot of the kick-off: everything at its starting place, at
    rest. *)
Definition kickoff (snap : gmap string BodyState.t) : Prop :=
  snap !! "ball" = Some (BodyState.mk (WORLD_WIDTH / 2) (WORLD_HEIGHT - 1) 0 0)
  /\ snap !! "1" = Some (BodyState.mk 2 1 0 0)
  /\ snap !! "2" = Some (BodyState.mk (WORLD_WIDTH - 2) 1 0 0).

(** In a log of posted messages, every goal message names a side and is
    followed at once by a snapshot of the kick-off. *)
Fixpoint goalsAnswered (log : list WorkerMsg) : Prop :=
  match log with
  | [] => True
  | MsgState _ :: rest => goalsAnswered rest
  | MsgGoal scorer :: MsgState snap :: rest =>
      (scorer = "left" \/ scorer = "right") /\ kickoff snap /\ goalsAnswered rest
  | MsgGoal _ :: _ => False
  end.

(** A second stand-in for the engine: a wind that carries the ball to the
    left at 720 units a second, everything else standing still. *)
Definition wind (dt : Q) (vIter pIter : Z) (bs : gmap string b2Body)
  : gmap string b2Body :=
  alter (fun b =>
           let p := GetPosition b in
           SetTransform (mkVec (Qred (get_x p - 720 * dt)) (get_y p)) (m_angle b) b)
        "ball" bs.

(** The top face of the ground: [setupWorld] puts a static box of
    half-height 0.1 at height 0. *)
Definition groundTop : Q := 0 + 0.1.

(** The goal and state messages among those posted. *)
Definition goals (l : list WorkerMsg) : list string :=
  omap (fun m => match m with MsgGoal s => Some s | _ => None end) l.

Definition states (l : list WorkerMsg) : list (gmap string BodyState.t) :=
  omap (fun m => match m with MsgState s => Some s | _ => None end) l.

End Worker.

(** ** main.js: the persisted replay collection *)

Module Replays.

(** The values [JSON.parse] produces. *)
#[local] Set Warnings "-register-all".
Inductive json :=
| JNull
| JBool (b : bool)
| JNumber (q : Q)
| JString (s : string)
| JArray (items : list json)
| JObject (members : list (string * json)).

(** [localStorage]: reading it may throw (storage disabled), otherwise it
    is a map from keys to strings. *)
Inductive Storage :=
| Unavailable
| Available (items : gmap string string).

Section Load.

(** The built-in [JSON.parse]; [None] stands for the [SyntaxError] it
    throws. *)
Variable JSON_parse : string -> option json.

(** The new value of the global [replays]. *)
Definition loadReplays (localStorage : Storage) : json :=
  match localStorage with
  | Unavailable => JArray []
  | Available items =>
      match items !! "replays" with
      | None => JArray []
      | Some text =>
          if String.eqb text "" then JArray []
          else match JSON_parse text with
               | Some v => v
               | None => JArray []
               end
      end
  end.

End Load.

(** *** A reader for JSON text

    A recursive-descent reader of the JSON grammar over ASCII text
    (objects, arrays, strings with the simple escapes, numbers, the three
    literals), used to run [loadReplays] on concrete stored text. *)

Definition is_ws (c : ascii) : bool :=
  match nat_of_ascii c with
  | 32%nat | 9%nat | 10%nat | 13%nat => true
  | _ => false
  end.

Fixpoint skip_ws (cs : list ascii) : list ascii :=
  match cs with
  | c :: r => if is_ws c then skip_ws r else cs
  | [] => []
  end.

Definition digit (c : ascii) : option Z :=
  let n := Z.of_nat (nat_of_ascii c) in
  if (48 <=? n)%Z && (n <=? 57)%Z then Some (n - 48)%Z else None.

(** Reads a run of digits: their value, how many there were, the rest. *)
Fixpoint digits (cs : list ascii) (acc : Z) (n : nat) : Z * nat * list ascii :=
  match cs with
  | c :: r =>
      match digit c with
      | Some d => digits r (10 * acc + d)%Z (S n)
      | None => (acc, n, cs)
      end
  | [] => (acc, n, [])
  end.

Definition read_exponent (cs : list ascii) : option (Z * list ascii) :=
  match cs with
  | ("e" | "E")%char :: r =>
      let '(neg, r1) :=
        match r with
        | "-"%char :: r1 => (true, r1)
        | "+"%char :: r1 => (false, r1)
        | _ => (false, r)
        end in
      match digits r1 0 0 with
      | (_, O, _) => None
      | (e, _, r2) => Some (if neg then (- e)%Z else e, r2)
      end
  | _ => Some (0%Z, cs)
  end.

Definition read_fraction (cs : list ascii) : option (Q * list ascii) :=
  match cs with
  | "."%char :: r =>
      match digits r 0 0 with
      | (_, O, _) => None
      | (f, k, r1) => Some (inject_Z f / inject_Z (10 ^ Z.of_nat k), r1)
      end
  | _ => Some (0, cs)
  end.

Definition read_number (cs : list ascii) : option (Q * list ascii) :=
  let '(neg, r) :=
    match cs with
    | "-"%char :: r => (true, r)
    | _ => (false, cs)
    end in
  match digits r 0 0 with
  | (_, O, _) => None
  | (i, k, r1) =>
      match r with
      | "0"%char :: _ => if (1 <? k)%nat then None else Some tt
      | _ => Some tt
      end ≫= fun _ =>
      '(f, r2) ← read_fraction r1;
      '(e, r3) ← read_exponent r2;
      let v := (inject_Z i + f) * Qpower 10 e in
      Some (if neg then - v else v, r3)
  end.

Definition read_escape (c : ascii) : option ascii :=
  match c with
  | "034"%char => Some "034"%char
  | "\"%char => Some "\"%char
  | "/"%char => Some "/"%char
  | "b"%char => Some (ascii_of_nat 8)
  | "f"%char => Some (ascii_of_nat 12)
  | "n"%char => Some (ascii_of_nat 10)
  | "r"%char => Some (ascii_of_nat 13)
  | "t"%char => Some (ascii_of_nat 9)
  | _ => None
  end.

(** The characters of a string literal after its opening quote. *)
Fixpoint read_string (cs : list ascii) : option (string * list ascii) :=
  match cs with
  | [] => None
  | "034"%char :: r => Some ("", r)
  | "\"%char :: c :: r =>
      e ← read_escape c;
      '(s, r1) ← read_string r;
      Some (String e s, r1)
  | c :: r =>
      if (nat_of_ascii c <? 32)%nat then None
      else '(s, r1) ← read_string r; Some (String c s, r1)
  end.

Definition read_literal (word : string) (v : json) (cs : list ascii)
  : option (json * list ascii) :=
  let w := list_ascii_of_string word in
  if decide (take (length w) cs = w) then Some (v, drop (length w) cs) else None.

Fixpoint read_value (fuel : nat) (cs : list ascii) : option (json * list ascii) :=
  match fuel with
  | O => None
  | S fuel =>
      match skip_ws cs with
      | "["%char :: r =>
          match skip_ws r with
          | "]"%char :: r1 => Some (JArray [], r1)
          | r1 => read_elements fuel r1 []
          end
      | "{"%char :: r =>
          match skip_ws r with
          | "}"%char :: r1 => Some (JObject [], r1)
          | r1 => read_members fuel r1 []
          end
      | "034"%char :: r => '(s, r1) ← read_string r; Some (JString s, r1)
      | "t"%char :: _ => read_literal "true" (JBool true) (skip_ws cs)
      | "f"%char :: _ => read_literal "false" (JBool false) (skip_ws cs)
      | "n"%char :: _ => read_literal "null" JNull (skip_ws cs)
      | r => '(q, r1) ← read_number r; Some (JNumber q, r1)
      end
  end
with read_elements (fuel : nat) (cs : list ascii) (acc : list json)
  : option (json * list ascii) :=
  match fuel with
  | O => None
  | S fuel =>
      '(v, r) ← read_value fuel cs;
      match skip_ws r with
      | ","%char :: r1 => read_elements fuel r1 (v :: acc)
      | "]"%char :: r1 => Some (JArray (rev (v :: acc)), r1)
      | _ => None
      end
  end
with read_members (fuel : nat) (cs : list ascii) (acc : list (string * json))
  : option (json * list ascii) :=
  match fuel with
  | O => None
  | S fuel =>
      match skip_ws cs with
      | "034"%char :: r =>
          '(k, r1) ← read_string r;
          match skip_ws r1 with
          | ":"%char :: r2 =>
              '(v, r3) ← read_value fuel r2;
              match skip_ws r3 with
              | ","%char :: r4 => read_members fuel r4 ((k, v) :: acc)
              | "}"%char :: r4 => Some (JObject (rev ((k, v) :: acc)), r4)
              | _ => None
              end
          | _ => None
          end
      | _ => None
      end
  end.

(** Stored text is written below with ['] where JSON has its double
    quote; [dq] puts the double quotes back. *)
Definition dq (text : string) : string :=
  string_of_list_ascii
    (map (fun c => if Ascii.eqb c "'"%char then "034"%char else c)
         (list_ascii_of_string text)).

(** The whole text must be one value, with white space around it at most.
    Every recursive call consumes a character at least every second step,
    so twice the length of the text is fuel enough. *)
Definition parse_text (text : string) : option json :=
  let cs := list_ascii_of_string text in
  '(v, r) ← read_value (2 * length cs + 2) cs;
  match skip_ws r with
  | [] => Some v
  | _ => None
  end.

End Replays.

(** ** main.js: replay frames and [playReplay] *)

Module Replay.

Record Pos := mkPos { x : Q; y : Q }.

(** One recorded frame: positions only, the scores and the remaining
    time. *)
Record Frame := mkFrame {
  ball : Pos;
  p1 : Pos;
  p2 : Pos;
  scoreLeft : Z;
  scoreRight : Z;
  timeLeft : Q
}.

(** What the replay scene shows: the three entity containers, the camera
    offset of the game container, and the two texts, kept as the numbers
    that are formatted into them. *)
Record View := mkView {
  ballEntity : Pos;
  player1Entity : Pos;
  player2Entity : Pos;
  gameContainer : Pos;
  scoreText : Z * Z;
  timerText : Z * Z
}.

(** The variables of the [playReplay] closure that [update] changes;
    [applied] logs the frames [f] read by the loop, oldest first, and
    [ticking] tells whether [update] is still attached to the ticker. *)
Record Player := mkPlayer {
  currentIndex : nat;
  elapsed : Q;
  view : View;
  applied : list Frame;
  ticking : bool
}.

Definition WORLD_WIDTH : Q := 10.
Definition WORLD_HEIGHT : Q := 5.

(** A count as a number, and the consumer time a list of frame deltas adds
    up to. *)
Definition ofNat (k : nat) : Q := inject_Z (Z.of_nat k).

Definition total (deltas : list Q) : Q := foldr Qplus 0 deltas.

Section Play.

(** [replay.frames] and [speed], the arguments of [playReplay]. *)
Variable frames : list Frame.
Variable speed : Q.

(** Layout numbers set by [computeScale] from the renderer size. *)
Variables scale offsetX offsetY rendererWidth : Q.

Definition totalFrames : nat := length frames.
Definition frameDuration : Q := 100 / speed.

Definition convert (pos : Pos) : Pos :=
  mkPos (x pos * scale) ((WORLD_HEIGHT - y pos) * scale).

(** The body of the loop after [currentIndex++]: positions, camera, score
    and timer. *)
Definition show (f : Frame) (v : View) : View :=
  let viewWidthWorld := rendererWidth / scale in
  let halfView := viewWidthWorld / 2 in
  let camX := x (ball f) in
  let camX := if JS.ltb camX halfView then halfView else camX in
  let camX := if JS.ltb (WORLD_WIDTH - halfView) camX
              then WORLD_WIDTH - halfView else camX in
  let totSec := Z.max 0 (JS.Math_ceil (timeLeft f / 1000)) in
  mkView (convert (ball f)) (convert (p1 f)) (convert (p2 f))
         (mkPos (offsetX + (WORLD_WIDTH / 2 - camX) * scale) offsetY)
         (scoreLeft f, scoreRight f)
         ((totSec / 60)%Z, (totSec mod 60)%Z).

(** [while (elapsed >= frameDuration && currentIndex < totalFrames)]: the
    index grows at every turn, so [totalFrames - currentIndex] turns are
    all the loop can make. *)
Fixpoint drain (turns : nat) (p : Player) : Player :=
  match turns with
  | O => p
  | S turns =>
      if JS.leb frameDuration (elapsed p) && (currentIndex p <? totalFrames)%nat then
        match frames !! currentIndex p with
        | Some f =>
            drain turns
              (mkPlayer (S (currentIndex p)) (elapsed p - frameDuration)
                        (show f (view p)) (applied p ++ [f]) (ticking p))
        | None => p
        end
      else p
  end.

(** The ticker callback; [deltaMS] is [app.ticker.deltaMS]. *)
Definition update (deltaMS : Q) (p : Player) : Player :=
  if (totalFrames <=? currentIndex p)%nat then
    mkPlayer (currentIndex p) (elapsed p) (view p) (applied p) false
  else
    drain (totalFrames - currentIndex p)
      (mkPlayer (currentIndex p) (elapsed p + deltaMS) (view p) (applied p)
                (ticking p)).

(** The scene as [playReplay] leaves it before the first tick: the
    containers at the origin, the texts ['0 : 0'] and ['0:00']. *)
Definition blank : View :=
  mkView (mkPos 0 0) (mkPos 0 0) (mkPos 0 0) (mkPos 0 0) (0, 0)%Z (0, 0)%Z.

Definition playReplay : Player := mkPlayer 0 0 blank [] true.

(** The ticker calls [update] once per consumer frame for as long as it is
    attached. *)
Fixpoint run (deltas : list Q) (p : Player) : Player :=
  match deltas with
  | [] => p
  | d :: rest => if ticking p then run rest (update d p) else p
  end.

(** *** Invariants of the player *)

(** What holds of the player between two calls of [update]. *)
Definition settled (p : Player) : Prop :=
  (currentIndex p <= totalFrames)%nat
  /\ applied p = take (currentIndex p) frames
  /\ view p = foldl (fun v f => show f v) blank (applied p)
  /\ 0 <= elapsed p.

(** The facts about time: while frames remain, the accumulator holds what
    is left of the consumer time [T] after a whole [frameDuration] per
    frame applied, less than one [frameDuration]; at the end, all the
    frames' time has passed; and [update] detaches only at the end. *)
Definition onTime (p : Player) (T : Q) : Prop :=
  ((currentIndex p < totalFrames)%nat ->
   elapsed p + ofNat (currentIndex p) * frameDuration == T
   /\ elapsed p < frameDuration)
  /\ (currentIndex p = totalFrames ->
      ofNat (totalFrames) * frameDuration <= T)
  /\ (ticking p = false -> currentIndex p = totalFrames).

End Play.

(** A frame of a recording for trying the player out: the ball at [k]. *)
Definition demoFrame (k : Q) : Frame :=
  mkFrame (mkPos k 1) (mkPos 2 1) (mkPos 8 1) 0 0 (90000 - k * 100).

End Replay.

(** ** main.js: AI profiles and [startMatch] *)

Module Match.

Record AIProfile := mkProfile { reactionTime : Q; aimError : Q }.

Definition aiLevels : list string :=
  ["Rookie"; "Amateur"; "Pro"; "Elite"; "Legend"].

Definition Rookie : AIProfile := mkProfile 0.30 15.

Definition aiProfiles : gmap string AIProfile :=
  <["Legend" := mkProfile 0.12 3]>
  (<["Elite" := mkProfile 0.15 6]>
  (<["Pro" := mkProfile 0.20 9]>
  (<["Amateur" := mkProfile 0.25 12]>
  (<["Rookie" := Rookie]> ∅)))).

(** The [options] argument of [startMatch]; an absent or empty [aiLevel]
    is [None]. *)
Record Options := mkOptions {
  ai : bool;
  aiLevel : option string;
  replay : bool
}.

Definition WORLD_WIDTH : Q := 10.
Definition WORLD_HEIGHT : Q := 5.

(** The three phases of the specification, read off the match state. *)
Inductive Phase := Regulation | Overtime | Ended.

(** The record [endMatch] appends to the replay collection (its timestamp
    is left out). *)
Record ReplayRecord := mkRecord {
  rec_aiLevel : string;
  finalScore : Z * Z;
  frames : list Replay.Frame
}.

(** The variables of the [startMatch] closure.  [sent] logs the messages
    posted to the worker, oldest first.  [ended] is set by [endMatch],
    which terminates the worker, removes the listeners and replaces the
    ticker, so that no handler of this match runs afterwards; [saved] is
    the record it stores. *)
Record State := mkState {
  scoreLeft : Z;
  scoreRight : Z;
  timeLeftMs : Q;
  overtime : bool;
  timerText : Z * Z;
  latestState : option (gmap string BodyState.t);
  playerInput : Input.t;
  aiDecisionCountdown : Q;
  aiLastInput : Input.t;
  superCooldown1 : Q;
  superCooldown2 : Q;
  recordAccumulator : Q;
  replayFrames : list Replay.Frame;
  sent : list PageMsg;
  ended : bool;
  saved : option ReplayRecord
}.

Definition phase (m : State) : Phase :=
  if ended m then Ended else if overtime m then Overtime else Regulation.

(** Assignments to single variables. *)
Definition set_score (l r : Z) (m : State) : State :=
  mkState l r (timeLeftMs m) (overtime m) (timerText m) (latestState m)
    (playerInput m) (aiDecisionCountdown m) (aiLastInput m) (superCooldown1 m)
    (superCooldown2 m) (recordAccumulator m) (replayFrames m) (sent m)
    (ended m) (saved m).

Definition set_clock (t : Q) (ot : bool) (m : State) : State :=
  mkState (scoreLeft m) (scoreRight m) t ot (timerText m) (latestState m)
    (playerInput m) (aiDecisionCountdown m) (aiLastInput m) (superCooldown1 m)
    (superCooldown2 m) (recordAccumulator m) (replayFrames m) (sent m)
    (ended m) (saved m).

Definition set_timerText (txt : Z * Z) (m : State) : State :=
  mkState (scoreLeft m) (scoreRight m) (timeLeftMs m) (overtime m) txt
    (latestState m) (playerInput m) (aiDecisionCountdown m) (aiLastInput m)
    (superCooldown1 m) (superCooldown2 m) (recordAccumulator m)
    (replayFrames m) (sent m) (ended m) (saved m).

Definition set_latestState (s : gmap string BodyState.t) (m : State) : State :=
  mkState (scoreLeft m) (scoreRight m) (timeLeftMs m) (overtime m)
    (timerText m) (Some s) (playerInput m) (aiDecisionCountdown m)
    (aiLastInput m) (superCooldown1 m) (superCooldown2 m)
    (recordAccumulator m) (replayFrames m) (sent m) (ended m) (saved m).

Definition set_playerInput (i : Input.t) (m : State) : State :=
  mkState (scoreLeft m) (scoreRight m) (timeLeftMs m) (overtime m)
    (timerText m) (latestState m) i (aiDecisionCountdown m) (aiLastInput m)
    (superCooldown1 m) (superCooldown2 m) (recordAccumulator m)
    (replayFrames m) (sent m) (ended m) (saved m).

Definition set_ai (countdown : Q) (input : Input.t) (cooldown2 : Q) (m : State)
  : State :=
  mkState (scoreLeft m) (scoreRight m) (timeLeftMs m) (overtime m)
    (timerText m) (latestState m) (playerInput m) countdown input
    (superCooldown1 m) cooldown2 (recordAccumulator m) (replayFrames m)
    (sent m) (ended m) (saved m).

Definition set_superCooldown1 (c : Q) (m : State) : State :=
  mkState (scoreLeft m) (scoreRight m) (timeLeftMs m) (overtime m)
    (timerText m) (latestState m) (playerInput m) (aiDecisionCountdown m)
    (aiLastInput m) c (superCooldown2 m) (recordAccumulator m)
    (replayFrames m) (sent m) (ended m) (saved m).

Definition set_recorder (acc : Q) (fs : list Replay.Frame) (m : State) : State :=
  mkState (scoreLeft m) (scoreRight m) (timeLeftMs m) (overtime m)
    (timerText m) (latestState m) (playerInput m) (aiDecisionCountdown m)
    (aiLastInput m) (superCooldown1 m) (superCooldown2 m) acc fs (sent m)
    (ended m) (saved m).

(** [worker.postMessage(msg)]. *)
Definition postMessage (msg : PageMsg) (m : State) : State :=
  mkState (scoreLeft m) (scoreRight m) (timeLeftMs m) (overtime m)
    (timerText m) (latestState m) (playerInput m) (aiDecisionCountdown m)
    (aiLastInput m) (superCooldown1 m) (superCooldown2 m)
    (recordAccumulator m) (replayFrames m) (sent m ++ [msg]) (ended m)
    (saved m).

Section Scene.

Variable options : Options.

(** The level selected in the menu, used when the options name none. *)
Variable selectedAILevel : string.

Definition isReplay : bool := replay options.

Definition aiLevelName : string :=
  match aiLevel options with
  | Some name => name
  | None => selectedAILevel
  end.

Definition aiProfile : AIProfile :=
  match aiProfiles !! aiLevelName with
  | Some p => p
  | None => Rookie
  end.

(** [!isReplay && options.ai]: a live match against the AI. *)
Definition aiOn : bool := negb isReplay && ai options.

(** The closure right after [startMatch] has set it up. *)
Definition startMatch : State :=
  mkState 0 0 (90 * 1000) false (1, 30)%Z None Input.idle 0 Input.idle 0 0 0 []
    [] false None.

Definition endMatch (m : State) : State :=
  mkState (scoreLeft m) (scoreRight m) (timeLeftMs m) (overtime m)
    (timerText m) (latestState m) (playerInput m) (aiDecisionCountdown m)
    (aiLastInput m) (superCooldown1 m) (superCooldown2 m)
    (recordAccumulator m) (replayFrames m) (sent m) true
    (if isReplay then saved m
     else Some (mkRecord aiLevelName (scoreLeft m, scoreRight m) (replayFrames m))).

(** [worker.onmessage]. *)
Definition onmessage (data : WorkerMsg) (m : State) : State :=
  match data with
  | MsgState s => set_latestState s m
  | MsgGoal scorer =>
      let m :=
        if String.eqb scorer "left"
        then set_score (scoreLeft m + 1) (scoreRight m) m
        else set_score (scoreLeft m) (scoreRight m + 1) m in
      if overtime m then endMatch m else m
  end.

(** *** The AI decision *)

Definition predictionTime : Q := 0.5.

(** [random] is the value [Math.random()] returns, in [0, 1). *)
Definition aimOffset (random : Q) : Q :=
  (random - 0.5) * 2 * (aimError aiProfile / 90).

Definition targetX (ball : BodyState.t) (random : Q) : Q :=
  let predictedX := BodyState.x ball + BodyState.vx ball * predictionTime in
  let err := aimOffset random in
  JS.Math_min (JS.Math_max (predictedX + err) 0) WORLD_WIDTH.

(** The body of [if (ball && aiBody)]: the new [aiLastInput], the new
    [superCooldown2] and whether a ['super'] message is posted. *)
Definition decide (ball aiBody : BodyState.t) (random : Q) (cooldown2 : Q)
  : Input.t * Q * bool :=
  let tx := targetX ball random in
  let '(l, r) :=
    if JS.ltb 0.05 (JS.Math_abs (tx - BodyState.x aiBody))
    then (JS.ltb tx (BodyState.x aiBody), JS.ltb (BodyState.x aiBody) tx)
    else (false, false) in
  let j := JS.ltb (BodyState.y aiBody + 0.3) (BodyState.y ball)
           && JS.ltb (JS.Math_abs (BodyState.x ball - BodyState.x aiBody)) 0.5 in
  if JS.leb cooldown2 0
     && JS.ltb (BodyState.y aiBody + 1.0) (BodyState.y ball)
     && JS.ltb (JS.Math_abs (BodyState.x ball - BodyState.x aiBody)) 0.6
  then (Input.mk l r j true, 7000, true)
  else (Input.mk l r j false, cooldown2, false).

(** The block [if (!isReplay && options.ai && latestState)]. *)
Definition aiControl (dtMs random : Q) (m : State) : State :=
  match latestState m with
  | Some state =>
      if aiOn then
        let countdown := aiDecisionCountdown m - dtMs in
        let cooldown2 := JS.Math_max 0 (superCooldown2 m - dtMs) in
        let m :=
          if JS.leb countdown 0 then
            let countdown := reactionTime aiProfile * 1000 in
            match state !! "ball", state !! "2" with
            | Some ball, Some aiBody =>
                let '(input, cooldown2, super) :=
                  decide ball aiBody random cooldown2 in
                let m := set_ai countdown input cooldown2 m in
                if super then postMessage (MsgSuper "2") m else m
            | _, _ => set_ai countdown (aiLastInput m) cooldown2 m
            end
          else set_ai countdown (aiLastInput m) cooldown2 m in
        postMessage (MsgInput "2" (aiLastInput m)) m
      else m
  | None => m
  end.

(** *** Recording *)

Definition pos_of (b : BodyState.t) : Replay.Pos :=
  Replay.mkPos (BodyState.x b) (BodyState.y b).

(** [while (recordAccumulator >= 100)]: each turn takes 100 off the
    accumulator and pushes the same frame. *)
Fixpoint record (turns : nat) (frame : Replay.Frame) (m : State) : State :=
  match turns with
  | O => m
  | S turns =>
      if JS.leb 100 (recordAccumulator m) then
        record turns frame
          (set_recorder (recordAccumulator m - 100) (replayFrames m ++ [frame]) m)
      else m
  end.

(** *** The timer

    The first statements of [update]: the decrement and the two expiry
    tests.  The boolean tells whether [update] returned at an
    [endMatch(); return;]. *)
Definition countDown (deltaMS : Q) (m : State) : State * bool :=
  let m := set_clock (timeLeftMs m - deltaMS) (overtime m) m in
  if negb (overtime m) && JS.leb (timeLeftMs m) 0 then
    if (scoreLeft m =? scoreRight m)%Z
    then (set_clock (30 * 1000) true m, false)
    else (endMatch m, true)
  else if overtime m && JS.leb (timeLeftMs m) 0 then (endMatch m, true)
  else (m, false).

(** *** The ticker callback

    [deltaMS] is [app.ticker.deltaMS]; [random] is the value of
    [Math.random()], read at a decision only.  The callback is cut into
    its blocks, in source order. *)

(** "Update timer display". *)
Definition showTimer (m : State) : State :=
  let totalSeconds := Z.max 0 (JS.Math_ceil (timeLeftMs m / 1000)) in
  set_timerText ((totalSeconds / 60)%Z, (totalSeconds mod 60)%Z) m.

(** "Send player input to worker", then clear the [super] flag. *)
Definition sendPlayerInput (m : State) : State :=
  if negb isReplay then
    let m := postMessage (MsgInput "1" (playerInput m)) m in
    let i := playerInput m in
    set_playerInput (Input.mk (Input.left i) (Input.right i) (Input.jump i) false) m
  else m.

(** The rest of the callback.  The sprite, camera and particle statements
    only write display objects and are left out, save that reading the
    three entries of the snapshot throws when one is missing, which ends
    the callback there; then the cooldown of player 1 and the recorder. *)
Definition finishFrame (deltaMS : Q) (m : State) : State :=
  match latestState m with
  | Some state =>
      match state !! "ball", state !! "1", state !! "2" with
      | Some b, Some b1, Some b2 =>
          if negb isReplay then
            let m := set_superCooldown1 (JS.Math_max 0 (superCooldown1 m - deltaMS)) m in
            let m := set_recorder (recordAccumulator m + deltaMS) (replayFrames m) m in
            let frame :=
              Replay.mkFrame (pos_of b) (pos_of b1) (pos_of b2)
                (scoreLeft m) (scoreRight m) (timeLeftMs m) in
            record (Z.to_nat (Qfloor (recordAccumulator m / 100))) frame m
          else m
      | _, _, _ => m
      end
  | None =>
      if negb isReplay
      then set_superCooldown1 (JS.Math_max 0 (superCooldown1 m - deltaMS)) m
      else m
  end.

Definition update (deltaMS random : Q) (m : State) : State :=
  let '(m, returned) := countDown deltaMS m in
  if returned then m
  else finishFrame deltaMS (aiControl deltaMS random (sendPlayerInput (showTimer m))).

(** The state after the timer block and the timer display. *)
Definition afterTimer (d : Q) (m : State) : State :=
  let '(m1, returned) := countDown d m in
  if returned then m1 else showTimer m1.

(** *** Keyboard and touch handlers *)

Definition press (key : string) (down : bool) (i : Input.t) : Input.t :=
  if String.eqb key "left" then Input.mk down (Input.right i) (Input.jump i) (Input.super i)
  else if String.eqb key "right" then Input.mk (Input.left i) down (Input.jump i) (Input.super i)
  else if String.eqb key "jump" then Input.mk (Input.left i) (Input.right i) down (Input.super i)
  else i.

Definition key_of (code : string) : string :=
  if String.eqb code "ArrowLeft" || String.eqb code "KeyA" then "left"
  else if String.eqb code "ArrowRight" || String.eqb code "KeyD" then "right"
  else if String.eqb code "Space" || String.eqb code "ArrowUp" || String.eqb code "KeyW"
  then "jump"
  else "".

Definition onKeyDown (code : string) (m : State) : State :=
  if String.eqb code "KeyK" then
    if JS.leb (superCooldown1 m) 0 && negb isReplay then
      let i := playerInput m in
      let m := set_playerInput (Input.mk (Input.left i) (Input.right i) (Input.jump i) true) m in
      postMessage (MsgSuper "1") (set_superCooldown1 5000 m)
    else m
  else set_playerInput (press (key_of code) true (playerInput m)) m.

Definition onKeyUp (code : string) (m : State) : State :=
  set_playerInput (press (key_of code) false (playerInput m)) m.

(** *** The page's event loop, as far as one match is concerned *)

Inductive Event :=
| Frame (deltaMS random : Q)
| Message (data : WorkerMsg)
| KeyDown (code : string)
| KeyUp (code : string)
| Pointer (key : string) (down : bool).

Definition handle (e : Event) (m : State) : State :=
  if ended m then m
  else match e with
       | Frame deltaMS random => update deltaMS random m
       | Message data => onmessage data m
       | KeyDown code => onKeyDown code m
       | KeyUp code => onKeyUp code m
       | Pointer key down => set_playerInput (press key down (playerInput m)) m
       end.

Definition run (events : list Event) (m : State) : State :=
  foldl (fun m e => handle e m) m events.

End Scene.

(** The options the menu's play button passes. *)
Definition menuOptions (selectedAILevel : string) : Options :=
  mkOptions true (Some selectedAILevel) false.

(** A snapshot with the ball at [(bx, by)] moving at [bvx], player 1 at
    its start and player 2 standing at [ax]. *)
Definition snapshotWith (bx by_ bvx ax : Q) : gmap string BodyState.t :=
  <["ball" := BodyState.mk bx by_ bvx 0]>
  (<["1" := BodyState.mk 2 1 0 0]>
  (<["2" := BodyState.mk ax 1 0 0]> ∅)).

(** The inputs posted for the AI's body. *)
Definition aiCommands (l : list PageMsg) : list Input.t :=
  omap (fun msg => match msg with
                   | MsgInput id input => if String.eqb id "2" then Some input else None
                   | _ => None
                   end) l.

(** Consumer time, in ms, that a run of events lets pass. *)
Definition elapsedMs (events : list Event) : Q :=
  foldr (fun e acc => match e with Frame d _ => d + acc | _ => acc end) 0 events.

(** The number of consumer frames in a run of events. *)
Fixpoint frameCount (events : list Event) : nat :=
  match events with
  | [] => 0
  | Frame _ _ :: rest => S (frameCount rest)
  | _ :: rest => frameCount rest
  end.

(** A command never asks for both directions. *)
Definition exclusive (i : Input.t) : Prop :=
  Input.left i && Input.right i = false.

(** *** Views of the state used to state what a block leaves alone *)

(** The part of the state the timer and the goal handler decide on. *)
Definition clock (m : State) : Z * Z * Q * bool * bool * (Z * Z) :=
  (scoreLeft m, scoreRight m, timeLeftMs m, overtime m, ended m, timerText m).

(** The fields the AI policy reads and writes, the message log and the
    end flag. *)
Definition aiView (m : State)
  : Q * Input.t * Q * option (gmap string BodyState.t) * list PageMsg * bool :=
  (aiDecisionCountdown m, aiLastInput m, superCooldown2 m, latestState m,
   sent m, ended m).

(** Every block of the callback keeps the commands posted so far, and the
    one held, exclusive. *)
Definition keepsExclusive (m : State) : Prop :=
  exclusive (aiLastInput m) /\ Forall exclusive (aiCommands (sent m)).

(** *** Readings of a run used to state what a match keeps *)

(** The goal messages of a run credited to the left side, and those
    credited to the right: every scorer other than ['left'] counts for the
    right. *)
Fixpoint leftGoals (events : list Event) : Z :=
  match events with
  | [] => 0
  | Message (MsgGoal scorer) :: rest =>
      ((if String.eqb scorer "left" then 1 else 0) + leftGoals rest)%Z
  | _ :: rest => leftGoals rest
  end.

Fixpoint rightGoals (events : list Event) : Z :=
  match events with
  | [] => 0
  | Message (MsgGoal scorer) :: rest =>
      ((if String.eqb scorer "left" then 0 else 1) + rightGoals rest)%Z
  | _ :: rest => rightGoals rest
  end.

(** A snapshot that has the three bodies the page reads. *)
Definition completeSnapshot (s : gmap string BodyState.t) : Prop :=
  is_Some (s !! "ball") /\ is_Some (s !! "1") /\ is_Some (s !! "2").

(** Every state message of a run carries the three bodies. *)
Definition completeSnapshots (events : list Event) : Prop :=
  Forall (fun e => match e with
                   | Message (MsgState s) => completeSnapshot s
                   | _ => True
                   end) events.

(** The ticker's deltas are not negative. *)
Definition forwardFrames (events : list Event) : Prop :=
  Forall (fun e => match e with Frame d _ => 0 <= d | _ => True end) events.

(** The body a message to the worker is about; ['reset'] names none. *)
Definition addressee (msg : PageMsg) : option string :=
  match msg with
  | MsgInput id _ => Some id
  | MsgSuper id => Some id
  | MsgReset => None
  end.

(** The number of ['super'] messages for body [id] in a log. *)
Fixpoint superCount (id : string) (l : list PageMsg) : nat :=
  match l with
  | [] => 0
  | MsgSuper id' :: rest =>
      ((if String.eqb id' id then 1 else 0) + superCount id rest)%nat
  | _ :: rest => superCount id rest
  end.

(** No event of the run is a state message. *)
Definition noSnapshot (events : list Event) : Prop :=
  Forall (fun e => match e with Message (MsgState _) => False | _ => True end) events.

(** The seconds the timer text shows, [minutes * 60 + seconds]. *)
Definition shownSeconds (m : State) : Z :=
  (fst (timerText m) * 60 + snd (timerText m))%Z.

(** The golden-goal rule as an invariant of the match. *)
Definition goldenGoal (m : State) : Prop :=
  (0 <= scoreLeft m)%Z /\ (0 <= scoreRight m)%Z
  /\ (ended m = false -> overtime m = true -> scoreLeft m = scoreRight m)
  /\ (ended m = true -> overtime m = false -> scoreLeft m <> scoreRight m)
  /\ (ended m = true -> overtime m = true ->
      scoreLeft m = scoreRight m
      \/ scoreLeft m = (scoreRight m + 1)%Z \/ scoreRight m = (scoreLeft m + 1)%Z)
  /\ (ended m = false -> 0 < timeLeftMs m).

(** The recorder's variables and the snapshot. *)
Definition recView (m : State)
  : Q * list Replay.Frame * option (gmap string BodyState.t) :=
  (recordAccumulator m, replayFrames m, latestState m).

(** What holds of the recorder once a complete snapshot has arrived. *)
Definition recording (m : State) : Prop :=
  (exists s, latestState m = Some s /\ completeSnapshot s)
  /\ 0 <= recordAccumulator m < 100
  /\ Forall (fun f => 0 < Replay.timeLeft f) (replayFrames m).

(** The consumer time the recording accounts for. *)
Definition recordedMs (m : State) : Q :=
  100 * Replay.ofNat (length (replayFrames m)) + recordAccumulator m.

(** The record saved, as [endMatch] builds it. *)
Definition savedRecord (options : Options) (level : string) (m : State)
  : option ReplayRecord :=
  if ended m && negb (replay options)
  then Some (mkRecord (aiLevelName options level) (scoreLeft m, scoreRight m)
               (replayFrames m))
  else None.

(** What holds of the timer text between two events. *)
Definition timerShown (m : State) : Prop :=
  (0 <= snd (timerText m) < 60)%Z
  /\ (1 <= shownSeconds m)%Z
  /\ (ended m = false ->
      0 < timeLeftMs m /\ shownSeconds m = JS.Math_ceil (timeLeftMs m / 1000)).

Definition timerBounded (m : State) : Prop :=
  (shownSeconds m <= 90)%Z /\ (ended m = false -> timeLeftMs m <= 90000).

End Match.

(** ** main.js: layout and camera *)

Module Camera.

Definition WORLD_WIDTH : Q := 10.
Definition WORLD_HEIGHT : Q := 5.

(** The variables [computeScale] assigns. *)
Record Layout := mkLayout { scale : Q; offsetX : Q; offsetY : Q }.

(** [computeScale], the same statements in [startMatch] and in
    [playReplay]; [width] and [height] are [app.renderer.width] and
    [app.renderer.height]. *)
Definition computeScale (width height : Q) : Layout :=
  let wScale := width / WORLD_WIDTH in
  let hScale := height / WORLD_HEIGHT in
  let scale := JS.Math_min wScale hScale in
  mkLayout scale ((width - WORLD_WIDTH * scale) / 2)
           ((height - WORLD_HEIGHT * scale) / 2).

(** The camera statements of [update] in [startMatch]: the dead zone
    around the ball and the two clamps; the result is the new [cameraX]. *)
Definition moveCamera (rendererWidth scale focusX cameraX : Q) : Q :=
  let dead := 1.0 in
  let cameraX :=
    if JS.ltb focusX (cameraX - dead) then focusX + dead
    else if JS.ltb (cameraX + dead) focusX then focusX - dead
    else cameraX in
  let viewWidthWorld := rendererWidth / scale in
  let halfView := viewWidthWorld / 2 in
  let cameraX := JS.Math_max cameraX halfView in
  JS.Math_min cameraX (WORLD_WIDTH - halfView).

(** [gameContainer.x] as [update] sets it from the camera. *)
Definition gameContainer_x (offsetX scale cameraX : Q) : Q :=
  offsetX + ((WORLD_WIDTH / 2 - cameraX) * scale).

End Camera.

(** ** main.js: the menu *)

Module Menu.

(** [Array.prototype.indexOf] on strings: [-1] when absent. *)
Fixpoint indexOf (l : list string) (name : string) : Z :=
  match l with
  | [] => -1
  | x :: rest =>
      if String.eqb x name then 0
      else let i := indexOf rest name in
           if (i <? 0)%Z then -1 else (i + 1)%Z
  end.

(** The click handler of the difficulty button: the new
    [selectedAILevel]; [None] is [undefined]. *)
Definition cycleDifficulty (selectedAILevel : string) : option string :=
  let idx := indexOf Match.aiLevels selectedAILevel in
  let idx := Z.rem (idx + 1) (Z.of_nat (length Match.aiLevels)) in
  Match.aiLevels !! Z.to_nat idx.

(** The file of the [i]-th character picture, [i] from 1 to 6. *)
Definition fileName (i : nat) : string :=
  if (i <=? 4)%nat
  then "assets/characters/player" ++ pretty i ++ ".png"
  else "assets/characters/player" ++ pretty (i mod 4 + 1)%nat ++ ".png".

(** [characterTextures]; [PIXI.Texture.from] gives one texture per file
    name, so a texture is told by its file. *)
Definition characterTextures : list string := map fileName (seq 1 6).

(** [p1Tex] and [p2Tex] for a character index. *)
Definition p1Tex (characterIndex : nat) : option string :=
  characterTextures !! characterIndex.

Definition p2Tex (characterIndex : nat) : option string :=
  characterTextures !! ((characterIndex + 3) mod length characterTextures)%nat.

End Menu.

(** ** main.js: the graphics quality setting *)

Module Settings.

Definition names : list string := ["Высокое"; "Среднее"; "Низкое"].

Definition qualityLevels : list Q := [1.0; 0.75; 0.5].

(** [localStorage.getItem(key) || fallback]. *)
Definition getItemOr (localStorage : gmap string string) (key fallback : string)
  : string :=
  match localStorage !! key with
  | Some v => if String.eqb v "" then fallback else v
  | None => fallback
  end.

(** The quality part of [applySettingsFromStorage]: the new value of
    [window.__desiredQualityIndex]. *)
Definition applySettingsFromStorage (localStorage : gmap string string)
    (desiredQualityIndex : option Z) : option Z :=
  match localStorage !! "gfxQuality" with
  | Some qualityName =>
      if String.eqb qualityName "" then desiredQualityIndex
      else
        let idx := Menu.indexOf names qualityName in
        if (0 <=? idx)%Z then Some idx else desiredQualityIndex
  | None => desiredQualityIndex
  end.

(** The settings overlay: the index shown on the quality button and the
    storage. *)
Record Overlay := mkOverlay {
  currentIndex : Z;
  localStorage : gmap string string
}.

Definition showSettings (localStorage : gmap string string) : Overlay :=
  let currentQualityName := getItemOr localStorage "gfxQuality" "Высокое" in
  let currentIndex := Menu.indexOf names currentQualityName in
  mkOverlay (if (currentIndex <? 0)%Z then 0%Z else currentIndex) localStorage.

(** [qualityButton.onclick]; a missing entry of [names] would be stored
    as the text ['undefined']. *)
Definition onclick (o : Overlay) : Overlay :=
  let currentIndex := Z.rem (currentIndex o + 1) (Z.of_nat (length names)) in
  mkOverlay currentIndex
    (<["gfxQuality" := default "undefined" (names !! Z.to_nat currentIndex)]>
       (localStorage o)).

Fixpoint clicks (k : nat) (o : Overlay) : Overlay :=
  match k with
  | O => o
  | S k => clicks k (onclick o)
  end.

(** [closeBtn.onclick]. *)
Definition close (o : Overlay) (desiredQualityIndex : option Z) : option Z :=
  applySettingsFromStorage (localStorage o) desiredQualityIndex.

(** The quality variables of a match: [qualityIndex], and the resolution
    given to the renderer, [None] while [applyQuality] has not run. *)
Record Quality := mkQuality { qualityIndex : Z; resolution : option Q }.

(** The initial [qualityIndex] of [startMatch]. *)
Definition startQuality (desiredQualityIndex : option Z) : Quality :=
  mkQuality (default 0%Z desiredQualityIndex) None.

(** The case ['KeyQ'] of [onKeyDown], with [applyQuality]. *)
Definition pressQ (q : Quality) : Quality :=
  let qualityIndex := Z.rem (qualityIndex q + 1) (Z.of_nat (length qualityLevels)) in
  mkQuality qualityIndex (qualityLevels !! Z.to_nat qualityIndex).

Fixpoint pressesQ (k : nat) (q : Quality) : Quality :=
  match k with
  | O => q
  | S k => pressesQ k (pressQ q)
  end.

(** The particle count of [spawnParticles]. *)
Definition particleCount (q : Quality) : Z :=
  if (qualityIndex q =? 0)%Z then 20 else if (qualityIndex q =? 1)%Z then 10 else 5.

End Settings.

(** * Properties *)

(** ** Comparisons and [Math] functions *)

Module JSFacts.
Import JS.

Lemma ltb_lt a b : ltb a b = true <-> a < b.
Proof.
  unfold ltb. rewrite negb_true_iff, <- not_true_iff_false, Qle_bool_iff.
  split; intros H; [apply Qnot_le_lt | apply Qlt_not_le]; exact H.
Qed.

Lemma ltb_ge a b : ltb a b = false <-> b <= a.
Proof. unfold ltb. rewrite negb_false_iff. apply Qle_bool_iff. Qed.

Lemma leb_le a b : leb a b = true <-> a <= b.
Proof. apply Qle_bool_iff. Qed.

Lemma leb_gt a b : leb a b = false <-> b < a.
Proof.
  unfold leb. rewrite <- not_true_iff_false, Qle_bool_iff.
  split; intros H; [apply Qnot_le_lt | apply Qlt_not_le]; exact H.
Qed.

Lemma Math_abs_spec a :
  (a < 0 /\ Math_abs a = - a) \/ (0 <= a /\ Math_abs a = a).
Proof.
  unfold Math_abs. destruct (ltb a 0) eqn:E.
  - left. split; [by apply ltb_lt | done].
  - right. split; [by apply ltb_ge | done].
Qed.

Lemma Math_max_spec a b :
  (a < b /\ Math_max a b = b) \/ (b <= a /\ Math_max a b = a).
Proof.
  unfold Math_max. destruct (ltb a b) eqn:E.
  - left. split; [by apply ltb_lt | done].
  - right. split; [by apply ltb_ge | done].
Qed.

Lemma Math_min_spec a b :
  (b < a /\ Math_min a b = b) \/ (a <= b /\ Math_min a b = a).
Proof.
  unfold Math_min. destruct (ltb b a) eqn:E.
  - left. split; [by apply ltb_lt | done].
  - right. split; [by apply ltb_ge | done].
Qed.

End JSFacts.

(** Case analysis on the comparisons of a goal, leaving order facts that
    [lra] understands. *)
Ltac js_cases :=
  repeat match goal with
  | H : JS.ltb _ _ = true |- _ => apply JSFacts.ltb_lt in H
  | H : JS.ltb _ _ = false |- _ => apply JSFacts.ltb_ge in H
  | H : JS.leb _ _ = true |- _ => apply JSFacts.leb_le in H
  | H : JS.leb _ _ = false |- _ => apply JSFacts.leb_gt in H
  | |- context [JS.ltb ?a ?b] => destruct (JS.ltb a b) eqn:?
  | |- context [JS.leb ?a ?b] => destruct (JS.leb a b) eqn:?
  end.



(** ** The simulation driver *)

Module WorkerFacts.
Import Box2D Worker.

Lemma resetPositions_complete s :
  complete (bodies s) ->
  resetPositions s = (Normal tt, mkState (resetBodies (bodies s)) (posted s)).
Proof.
  intros ([b Hb] & [b1 H1] & [b2 H2]).
  unfold resetPositions, bind, body, call, resetBodies. simpl.
  rewrite Hb. simpl.
  rewrite !lookup_alter_ne by done. rewrite H1. simpl.
  rewrite !lookup_alter_ne by done. rewrite H2. reflexivity.
Qed.

(** Whether it completes or throws, [resetPositions] posts nothing. *)
Lemma resetPositions_posted s : posted (snd (resetPositions s)) = posted s.
Proof.
  unfold resetPositions, bind, body, call. simpl.
  destruct (bodies s !! "ball"); simpl; [|done].
  rewrite !lookup_alter_ne by done.
  destruct (bodies s !! "1"); simpl; [|done].
  rewrite !lookup_alter_ne by done.
  destruct (bodies s !! "2"); simpl; done.
Qed.

Lemma resetBodies_ball bs b :
  bs !! "ball" = Some b ->
  entry <$> resetBodies bs !! "ball"
  = Some (BodyState.mk (WORLD_WIDTH / 2) (WORLD_HEIGHT - 1) 0 0).
Proof.
  intros Hb. unfold resetBodies.
  rewrite !lookup_alter_ne by done.
  rewrite !lookup_alter_eq, Hb. reflexivity.
Qed.

Lemma detectGoal_cases x :
  (x < -0.5 /\ detectGoal x = Some "right")
  \/ (WORLD_WIDTH + 0.5 < x /\ detectGoal x = Some "left")
  \/ (-0.5 <= x <= WORLD_WIDTH + 0.5 /\ detectGoal x = None).
Proof.
  unfold detectGoal, WORLD_WIDTH. js_cases; [left | right; left | right; right];
    repeat split; try done; try lra.
Qed.

(** What one tick posts, from the goal test on the stepped ball. *)
Lemma stepWorld_posted world_Step bs b :
  world_Step (1 / 120) 8%Z 3%Z bs !! "ball" = Some b ->
  exists rest,
    emitted (stepWorld world_Step) bs
    = match detectGoal (get_x (GetPosition b)) with
      | Some scorer => MsgGoal scorer :: rest
      | None => rest
      end
    /\ goals rest = [].
Proof.
  intros Hb. unfold emitted, stepWorld, bind, Step, body. simpl. rewrite Hb.
  destruct (detectGoal _) as [scorer|]; simpl.
  - unfold postMessage at 1. simpl.
    match goal with |- context [resetPositions ?s0] =>
      pose proof (resetPositions_posted s0) as Hp;
      destruct (resetPositions s0) as [[[]|] s1] end; simpl in *.
    + eexists. rewrite Hp. split; [reflexivity | reflexivity].
    + eexists. rewrite Hp. split; [reflexivity | reflexivity].
  - eexists. split; reflexivity.
Qed.

(** C2.  After the world is stepped, a ball whose horizontal position is
    below -0.5 makes the tick post the goal message crediting the right
    side, a ball above [WORLD_WIDTH + 0.5] (the width is 10) the one
    crediting the left side, and a ball in between no goal message. *)
Theorem goal_side_attribution world_Step bs b :
  world_Step (1 / 120) 8%Z 3%Z bs !! "ball" = Some b ->
  let x := get_x (GetPosition b) in
  WORLD_WIDTH = 10
  /\ (x < -0.5 -> goals (emitted (stepWorld world_Step) bs) = ["right"])
  /\ (WORLD_WIDTH + 0.5 < x -> goals (emitted (stepWorld world_Step) bs) = ["left"])
  /\ (-0.5 <= x <= WORLD_WIDTH + 0.5 -> goals (emitted (stepWorld world_Step) bs) = []).
Proof.
  intros Hb x. destruct (stepWorld_posted world_Step bs b Hb) as (rest & -> & Hrest).
  fold x. split; [reflexivity|].
  destruct (detectGoal_cases x) as [[Hx ->] | [[Hx ->] | [Hx ->]]];
    unfold WORLD_WIDTH in *; simpl; rewrite ?Hrest;
    repeat split; intros; try reflexivity; lra.
Qed.

Lemma goal_side_attribution_witness :
  goals (emitted (stepWorld drift) (ballAt (-0.49) (-6))) = ["right"].
Proof.
  refine (proj1 (proj2 (goal_side_attribution drift (ballAt (-0.49) (-6))
            (mkBody (mkVec (-27 # 50) 1) 0 (mkVec (-6) 0) 0 0.019) _)) _).
  - vm_compute. reflexivity.
  - vm_compute. reflexivity.
Defined.

Lemma complete_resetBodies bs : complete bs -> complete (resetBodies bs).
Proof.
  intros ([b Hb] & [b1 H1] & [b2 H2]). unfold complete, resetBodies.
  repeat split; rewrite ?lookup_alter; repeat case_decide; try done;
    rewrite ?Hb, ?H1, ?H2; simpl; eauto.
Qed.

(** A tick on a world that still holds its three bodies completes; it
    posts the goal message, if any, and then one state message, taken from
    the bodies as the tick leaves them. *)
Lemma stepWorld_complete world_Step bs b :
  let bs' := world_Step (1 / 120) 8%Z 3%Z bs in
  complete bs' ->
  bs' !! "ball" = Some b ->
  stepWorld world_Step (mkState bs [])
  = match detectGoal (get_x (GetPosition b)) with
    | Some scorer =>
        (Normal tt, mkState (resetBodies bs')
                      [MsgGoal scorer; MsgState (entry <$> resetBodies bs')])
    | None => (Normal tt, mkState bs' [MsgState (entry <$> bs')])
    end.
Proof.
  intros bs' Hc Hb. unfold stepWorld, bind, Step, body. simpl. fold bs'.
  rewrite Hb. destruct (detectGoal _) as [scorer|]; simpl; [|reflexivity].
  unfold postMessage at 1. simpl.
  rewrite resetPositions_complete by exact Hc. reflexivity.
Qed.

(** C3.  Every tick posts exactly one state snapshot, as its last message;
    on a tick that detects a goal the snapshot is taken after
    [resetPositions] has run, and so shows the ball at the centre top; in
    every case the ball of the snapshot lies within
    [-0.5, WORLD_WIDTH + 0.5]. *)
Theorem one_snapshot_after_reset world_Step bs :
  complete (world_Step (1 / 120) 8%Z 3%Z bs) ->
  exists snap e,
    fst (stepWorld world_Step (mkState bs [])) = Normal tt
    /\ states (emitted (stepWorld world_Step) bs) = [snap]
    /\ last (emitted (stepWorld world_Step) bs) = Some (MsgState snap)
    /\ snap = entry <$> bodies (snd (stepWorld world_Step (mkState bs [])))
    /\ snap !! "ball" = Some e
    /\ -0.5 <= BodyState.x e <= WORLD_WIDTH + 0.5
    /\ (goals (emitted (stepWorld world_Step) bs) <> [] ->
        snap = entry <$> resetBodies (world_Step (1 / 120) 8%Z 3%Z bs)
        /\ e = BodyState.mk (WORLD_WIDTH / 2) (WORLD_HEIGHT - 1) 0 0).
Proof.
  intros Hc. pose proof Hc as ([b Hb] & _).
  unfold emitted. rewrite (stepWorld_complete world_Step bs b Hc Hb).
  destruct (detectGoal_cases (get_x (GetPosition b))) as [[Hx ->] | [[Hx ->] | [Hx ->]]].
  1, 2: exists (entry <$> resetBodies (world_Step (1 / 120) 8%Z 3%Z bs)),
               (BodyState.mk (WORLD_WIDTH / 2) (WORLD_HEIGHT - 1) 0 0);
        simpl; repeat split; try reflexivity;
        try (rewrite lookup_fmap; apply (resetBodies_ball _ b Hb));
        vm_compute; discriminate.
  exists (entry <$> world_Step (1 / 120) 8%Z 3%Z bs), (entry b). simpl.
  repeat split; try reflexivity; try tauto; try (simpl in Hx; lra).
  rewrite lookup_fmap, Hb. reflexivity.
Qed.

Lemma one_snapshot_after_reset_witness :
  exists snap,
    states (emitted (stepWorld drift) (ballAt (-0.49) (-6))) = [snap]
    /\ snap !! "ball"
       = Some (BodyState.mk (WORLD_WIDTH / 2) (WORLD_HEIGHT - 1) 0 0).
Proof.
  destruct (one_snapshot_after_reset drift (ballAt (-0.49) (-6)))
    as (snap & e & _ & Hs & _ & _ & Hball & _ & Hreset).
  - unfold complete. repeat split; eexists; vm_compute; reflexivity.
  - exists snap. split; [exact Hs|].
    destruct Hreset as [_ ->]; [vm_compute; discriminate|].
    exact Hball.
Defined.

(** Above the resting height, or with vertical speed, the test that guards
    the impulse is false. *)
Lemma handleInput_gate_closed b :
  PLAYER_RADIUS + 0.05 < get_y (GetPosition b)
  \/ 0.1 < JS.Math_abs (get_y (GetLinearVelocity b)) ->
  JS.leb (get_y (GetPosition b)) (PLAYER_RADIUS + 0.05)
  && JS.ltb (JS.Math_abs (get_y (GetLinearVelocity b))) 0.1 = false.
Proof.
  intros [H | H]; apply andb_false_iff; [left | right].
  - by apply JSFacts.leb_gt.
  - apply JSFacts.ltb_ge. lra.
Qed.

(** C5, as the code has it.  A command with [jump] set, applied to a body
    above the resting height [PLAYER_RADIUS + 0.05] or whose vertical speed
    exceeds 0.1, applies no jump impulse: the handler does exactly what it
    does for the same command without [jump], the vertical velocity and
    the position are unchanged, and the horizontal velocity is the one
    selected by the direction flags (-4, 4 or 0). *)
Theorem jump_gating s id b input :
  bodies s !! id = Some b ->
  Input.jump input = true ->
  PLAYER_RADIUS + 0.05 < get_y (GetPosition b)
  \/ 0.1 < JS.Math_abs (get_y (GetLinearVelocity b)) ->
  handleInput id input s
  = handleInput id (Input.mk (Input.left input) (Input.right input) false
                             (Input.super input)) s
  /\ exists b',
      bodies (snd (handleInput id input s)) !! id = Some b'
      /\ get_y (GetLinearVelocity b') = get_y (GetLinearVelocity b)
      /\ GetPosition b' = GetPosition b
      /\ get_x (GetLinearVelocity b')
         = if Input.left input && negb (Input.right input) then - (4)
           else if Input.right input && negb (Input.left input) then 4
           else 0.
Proof.
  intros Hb Hj Hgate. apply handleInput_gate_closed in Hgate.
  unfold handleInput. rewrite Hb, Hj. simpl. rewrite Hgate.
  split; [reflexivity|].
  unfold bind, call, ret. simpl. rewrite lookup_alter_eq, Hb. simpl.
  eexists. split; [reflexivity|]. simpl. repeat split.
Qed.

Lemma jump_gating_witness :
  let b := mkBody (mkVec 2 2) 0 (mkVec 4 (-3)) 0 0.28 in
  let s := mkState (<["1" := b]> setupWorld) [] in
  handleInput "1" (Input.mk false false true false) s
  = handleInput "1" (Input.mk false false false false) s.
Proof.
  intros b s.
  refine (proj1 (jump_gating s "1" b (Input.mk false false true false) _ _ _)).
  - vm_compute. reflexivity.
  - reflexivity.
  - left. vm_compute. reflexivity.
Defined.

(** C5, as stated, fails: player 1 in the air at height 2, moving at
    (4, -3), receives a command with only [jump] set.  No impulse is
    applied, but the handler still overwrites the horizontal velocity, so
    the velocity changes from (4, -3) to (0, -3). *)
Lemma jump_in_air_changes_velocity :
  let b := mkBody (mkVec 2 2) 0 (mkVec 4 (-3)) 0 0.28 in
  let input := Input.mk false false true false in
  let s := mkState (<["1" := b]> setupWorld) [] in
  Input.jump input = true
  /\ PLAYER_RADIUS + 0.05 < get_y (GetPosition b)
  /\ 0.1 < JS.Math_abs (get_y (GetLinearVelocity b))
  /\ GetLinearVelocity <$> bodies s !! "1" = Some (mkVec 4 (-3))
  /\ GetLinearVelocity <$> bodies (snd (handleInput "1" input s)) !! "1"
     = Some (mkVec 0 (-3))
  /\ GetLinearVelocity <$> bodies (snd (handleInput "1" input s)) !! "1"
     <> GetLinearVelocity <$> bodies s !! "1".
Proof. vm_compute. repeat split; try reflexivity. discriminate. Qed.

(** *** The whole run of the worker *)

Lemma states_app l1 l2 : states (l1 ++ l2) = states l1 ++ states l2.
Proof. unfold states. apply omap_app. Qed.

Lemma complete_alter f key bs : complete bs -> complete (alter f key bs).
Proof.
  intros ([b Hb] & [b1 H1] & [b2 H2]). unfold complete.
  split; [|split]; rewrite lookup_alter; case_decide; subst;
    rewrite ?Hb, ?H1, ?H2; simpl; eauto.
Qed.

(** A message of the page changes bodies, never their number, and posts
    nothing. *)
Lemma onmessage_complete data s :
  complete (bodies s) ->
  complete (bodies (snd (onmessage data s)))
  /\ posted (snd (onmessage data s)) = posted s.
Proof.
  intros Hc. destruct data as [id input | | id]; simpl.
  - unfold handleInput. destruct (bodies s !! id) as [b|]; [|done].
    unfold bind, call, ret. simpl.
    destruct (Input.jump input); [destruct (_ && _)|]; simpl;
      (split; [|reflexivity]); repeat apply complete_alter; exact Hc.
  - rewrite resetPositions_complete by exact Hc. simpl.
    split; [by apply complete_resetBodies | reflexivity].
  - unfold superJump. destruct (bodies s !! id) as [b|]; [|done].
    unfold call. simpl. split; [by apply complete_alter | reflexivity].
Qed.

(** The log on which a tick starts does not matter to what it does. *)
Lemma stepWorld_log world_Step s :
  stepWorld world_Step s
  = let r := stepWorld world_Step (mkState (bodies s) []) in
    (fst r, mkState (bodies (snd r)) (posted s ++ posted (snd r))).
Proof.
  unfold stepWorld, bind, Step, body. simpl.
  destruct (world_Step _ _ _ _ !! "ball") as [b|] eqn:Hb; simpl;
    [|by rewrite app_nil_r].
  destruct (detectGoal _) as [scorer|]; simpl; [|reflexivity].
  unfold postMessage at 1 3. simpl. unfold resetPositions, bind, body, call. simpl.
  rewrite Hb. simpl. rewrite !lookup_alter_ne by done.
  destruct (world_Step _ _ _ _ !! "1"); simpl; [|reflexivity].
  rewrite !lookup_alter_ne by done.
  destruct (world_Step _ _ _ _ !! "2"); simpl; [|reflexivity].
  by rewrite <- app_assoc.
Qed.

Section Run.

Variable world_Step : Q -> Z -> Z -> gmap string b2Body -> gmap string b2Body.

(** The engine moves bodies; it neither creates nor destroys them. *)
Hypothesis world_Step_complete :
  forall dt vIter pIter bs, complete bs -> complete (world_Step dt vIter pIter bs).

(** X7.  From the world of [setupWorld], whatever the page sends and however
    many ticks pass: the worker has posted one snapshot per tick, and every
    one of them shows the ball within the goal lines. *)
Lemma snapshots_always_in_bounds events :
  let s := run world_Step events (mkState setupWorld []) in
  complete (bodies s)
  /\ length (states (posted s)) = tickCount events
  /\ Forall inBounds (states (posted s)).
Proof.
  assert (forall s0, complete (bodies s0) ->
            let s := run world_Step events s0 in
            complete (bodies s)
            /\ length (states (posted s))
               = (length (states (posted s0)) + tickCount events)%nat
            /\ (Forall inBounds (states (posted s0)) ->
                Forall inBounds (states (posted s)))) as H.
  { induction events as [|e events IH]; intros s0 Hc; simpl.
    - split; [done|]. split; [lia | done].
    - assert (complete (bodies (handle world_Step e s0))
              /\ length (states (posted (handle world_Step e s0)))
                 = (length (states (posted s0)) + tickCount [e])%nat
              /\ (Forall inBounds (states (posted s0)) ->
                  Forall inBounds (states (posted (handle world_Step e s0)))))
        as (H1 & H2 & H3).
      { destruct e as [|data]; simpl.
        - rewrite stepWorld_log. simpl.
          pose proof (world_Step_complete (1 / 120) 8%Z 3%Z _ Hc) as Hc'.
          pose proof Hc' as ([b Hball] & _).
          rewrite (stepWorld_complete world_Step (bodies s0) b Hc' Hball).
          destruct (detectGoal_cases (get_x (GetPosition b)))
            as [[Hx ->] | [[Hx ->] | [Hx ->]]]; simpl;
            rewrite states_app, length_app; simpl.
          1, 2: split; [by apply complete_resetBodies|]; split; [lia|];
                intros H0; apply Forall_app; split; [done|];
                constructor; [|constructor]; eexists; split;
                [rewrite lookup_fmap; apply (resetBodies_ball _ b Hball)
                |vm_compute; split; discriminate].
          split; [done|]. split; [lia|].
          intros H0. apply Forall_app. split; [done|].
          constructor; [|constructor]. exists (entry b). split; [|exact Hx].
          by rewrite lookup_fmap, Hball.
        - destruct (onmessage_complete data s0 Hc) as [G1 G2].
          rewrite G2. split; [done|]. split; [lia | done]. }
      destruct (IH _ H1) as (G1 & G2 & G3). fold (run world_Step events (handle world_Step e s0)).
      split; [done|]. split; [|auto].
      rewrite G2, H2. destruct e; simpl; lia. }
  destruct (H (mkState setupWorld [])) as (H1 & H2 & H3).
  { unfold complete. repeat split; eexists; vm_compute; reflexivity. }
  simpl in *. split; [done|]. split; [done|]. apply H3. constructor.
Qed.

End Run.

(** *** More of the worker *)

Lemma resetPositions_dom s :
  dom (bodies (snd (resetPositions s))) = dom (bodies s).
Proof.
  unfold resetPositions, bind, body, call. simpl.
  destruct (bodies s !! "ball"); simpl; [|done].
  rewrite !lookup_alter_ne by done.
  destruct (bodies s !! "1"); simpl; [|by rewrite !dom_alter_L].
  rewrite !lookup_alter_ne by done.
  destruct (bodies s !! "2"); simpl; by rewrite !dom_alter_L.
Qed.

(** X1.  No message of the page creates or removes a body, and none makes
    the worker post anything; a message addressed to an id that has no
    body changes nothing at all. *)
Theorem page_messages_keep_bodies data s :
  dom (bodies (snd (onmessage data s))) = dom (bodies s)
  /\ posted (snd (onmessage data s)) = posted s
  /\ (forall id input, data = MsgInput id input -> bodies s !! id = None ->
      onmessage data s = (Normal tt, s))
  /\ (forall id, data = MsgSuper id -> bodies s !! id = None ->
      onmessage data s = (Normal tt, s)).
Proof.
  split; [|split; [|split]].
  - destruct data as [id input | | id]; simpl.
    + unfold handleInput. destruct (bodies s !! id) as [b|]; [|done].
      unfold bind, call, ret. simpl.
      destruct (Input.jump input); [destruct (_ && _)|]; simpl;
        by rewrite !dom_alter_L.
    + apply resetPositions_dom.
    + unfold superJump. destruct (bodies s !! id) as [b|]; [|done].
      unfold call. simpl. by rewrite dom_alter_L.
  - destruct data as [id input | | id]; simpl.
    + unfold handleInput. destruct (bodies s !! id) as [b|]; [|done].
      unfold bind, call, ret. simpl.
      by destruct (Input.jump input); [destruct (_ && _)|].
    + apply resetPositions_posted.
    + unfold superJump. by destruct (bodies s !! id) as [b|].
  - intros id input -> Hid. simpl. unfold handleInput. by rewrite Hid.
  - intros id -> Hid. simpl. unfold superJump. by rewrite Hid.
Qed.

Lemma handleInput_body s id b input :
  bodies s !! id = Some b ->
  exists b',
    bodies (snd (handleInput id input s)) !! id = Some b'
    /\ GetPosition b' = GetPosition b
    /\ GetMass b' = GetMass b
    /\ get_x (GetLinearVelocity b')
       == (if Input.left input && negb (Input.right input) then - (4)
           else if Input.right input && negb (Input.left input) then 4
           else 0)
    /\ get_y (GetLinearVelocity b')
       == get_y (GetLinearVelocity b)
          + (if Input.jump input
                && JS.leb (get_y (GetPosition b)) (PLAYER_RADIUS + 0.05)
                && JS.ltb (JS.Math_abs (get_y (GetLinearVelocity b))) 0.1
             then 6.2 * GetMass b / GetMass b else 0).
Proof.
  intros Hb. unfold handleInput. rewrite Hb. unfold bind, call, ret. simpl.
  destruct (Input.jump input); simpl.
  - destruct (JS.leb _ _ && JS.ltb _ _) eqn:Hg; simpl.
    + rewrite !lookup_alter_eq, Hb. simpl. eexists. split; [reflexivity|]. simpl.
      split; [done|]. split; [done|]. split.
      * unfold Qdiv. ring.
      * reflexivity.
    + rewrite !lookup_alter_eq, Hb. simpl. eexists. split; [reflexivity|]. simpl.
      split; [done|]. split; [done|]. split; [reflexivity | ring].
  - rewrite !lookup_alter_eq, Hb. simpl. eexists. split; [reflexivity|]. simpl.
    split; [done|]. split; [done|]. split; [reflexivity | ring].
Qed.

(** X2.  Whatever a body's velocity was, an input command sets its
    horizontal velocity from the direction flags alone: -4 for left only,
    4 for right only, and 0 when neither or both are pressed; its position
    is not touched. *)
Theorem horizontal_velocity_from_flags s id b input :
  bodies s !! id = Some b ->
  exists b',
    bodies (snd (handleInput id input s)) !! id = Some b'
    /\ GetPosition b' = GetPosition b
    /\ (Input.left input = true -> Input.right input = false ->
        get_x (GetLinearVelocity b') == - (4))
    /\ (Input.right input = true -> Input.left input = false ->
        get_x (GetLinearVelocity b') == 4)
    /\ (Input.left input = Input.right input ->
        get_x (GetLinearVelocity b') == 0).
Proof.
  intros Hb. destruct (handleInput_body s id b input Hb) as (b' & H1 & H2 & _ & H3 & _).
  exists b'. split; [done|]. split; [done|].
  destruct (Input.left input), (Input.right input); simpl in H3;
    (split; [|split]); intros; try discriminate; exact H3.
Qed.

Lemma horizontal_velocity_from_flags_witness :
  let b := mkBody (mkVec 2 2) 0 (mkVec 3 (-3)) 0 0.28 in
  let s := mkState (<["1" := b]> setupWorld) [] in
  exists b',
    bodies (snd (handleInput "1" (Input.mk true true false false) s)) !! "1" = Some b'
    /\ get_x (GetLinearVelocity b') == 0.
Proof.
  intros b s.
  destruct (horizontal_velocity_from_flags s "1" b (Input.mk true true false false))
    as (b' & H1 & _ & _ & _ & H2).
  - vm_compute. reflexivity.
  - exists b'. split; [exact H1 | exact (H2 eq_refl)].
Defined.





Lemma lookup_resetBodies bs key :
  resetBodies bs !! key = resetBody key <$> bs !! key.
Proof.
  unfold resetBodies, resetBody. rewrite !lookup_alter.
  repeat case_decide; subst; simpl; try done.
  1-3: by destruct (bs !! _).
  destruct (bs !! key); simpl; [|done].
  destruct (String.eqb_spec key "ball"); [congruence|].
  destruct (String.eqb_spec key "1"); [congruence|].
  destruct (String.eqb_spec key "2"); [congruence|]. done.
Qed.

Lemma resetBody_twice key b : resetBody key (resetBody key b) = resetBody key b.
Proof.
  unfold resetBody. by destruct (String.eqb key "ball"), (String.eqb key "1"),
    (String.eqb key "2").
Qed.

(** X5.  [resetPositions] on a world that holds its three bodies puts the
    ball at the centre top and the players at their starting places, all
    at rest, and touches no other body; doing it a second time changes
    nothing. *)
Theorem reset_is_kickoff s :
  complete (bodies s) ->
  let s' := snd (resetPositions s) in
  entry <$> bodies s' !! "ball"
  = Some (BodyState.mk (WORLD_WIDTH / 2) (WORLD_HEIGHT - 1) 0 0)
  /\ entry <$> bodies s' !! "1" = Some (BodyState.mk 2 1 0 0)
  /\ entry <$> bodies s' !! "2" = Some (BodyState.mk (WORLD_WIDTH - 2) 1 0 0)
  /\ (forall key, key <> "ball" -> key <> "1" -> key <> "2" ->
      bodies s' !! key = bodies s !! key)
  /\ (forall key, GetMass <$> bodies s' !! key = GetMass <$> bodies s !! key)
  /\ resetPositions s' = (Normal tt, s').
Proof.
  intros Hc s'. subst s'. rewrite resetPositions_complete by done. simpl.
  pose proof Hc as ([b Hb] & [b1 H1] & [b2 H2]).
  rewrite !lookup_resetBodies, Hb, H1, H2. simpl.
  split; [done|]. split; [done|]. split; [done|]. split; [|split].
  - intros key Hk Hk1 Hk2. rewrite lookup_resetBodies. unfold resetBody.
    destruct (String.eqb_spec key "ball"); [done|].
    destruct (String.eqb_spec key "1"); [done|].
    destruct (String.eqb_spec key "2"); [done|]. by destruct (bodies s !! key).
  - intros key. rewrite lookup_resetBodies. destruct (bodies s !! key); [|done].
    simpl. unfold resetBody.
    by destruct (String.eqb key "ball"), (String.eqb key "1"), (String.eqb key "2").
  - rewrite resetPositions_complete by (by apply complete_resetBodies). simpl.
    f_equal. f_equal. apply map_eq. intros key.
    rewrite !lookup_resetBodies. destruct (bodies s !! key); [|done]. simpl.
    by rewrite resetBody_twice.
Qed.

Lemma reset_is_kickoff_witness :
  let s := mkState (ballAt 9 3) [] in
  entry <$> bodies (snd (resetPositions s)) !! "ball"
  = Some (BodyState.mk (WORLD_WIDTH / 2) (WORLD_HEIGHT - 1) 0 0).
Proof.
  intros s. refine (proj1 (reset_is_kickoff s _)).
  unfold complete. repeat split; eexists; vm_compute; reflexivity.
Defined.


Lemma goalsAnswered_app l1 l2 :
  goalsAnswered l1 -> goalsAnswered l2 -> goalsAnswered (l1 ++ l2).
Proof.
  intros H1 H2. remember (length l1) as n eqn:Hn.
  revert l1 Hn H1. induction n as [n IH] using lt_wf_ind. intros l1 Hn H1.
  destruct l1 as [|[scorer|snap] l1]; simpl in *; [done| |].
  - destruct l1 as [|[scorer'|snap] l1]; simpl in *; [done|done|].
    destruct H1 as (Hs & Hk & H1). split; [done|]. split; [done|].
    apply (IH (length l1)); [lia | done | done].
  - apply (IH (length l1)); [lia | done | done].
Qed.

Lemma resetBodies_kickoff bs : complete bs -> kickoff (entry <$> resetBodies bs).
Proof.
  intros ([b Hb] & [b1 H1] & [b2 H2]). unfold kickoff.
  by rewrite !lookup_fmap, !lookup_resetBodies, Hb, H1, H2.
Qed.

Lemma tick_block world_Step s :
  complete (world_Step (1 / 120) 8%Z 3%Z (bodies s)) ->
  complete (bodies (handle world_Step Tick s))
  /\ exists block,
      posted (handle world_Step Tick s) = posted s ++ block
      /\ goalsAnswered block.
Proof.
  intros Hc. pose proof Hc as ([b Hb] & _). simpl.
  rewrite stepWorld_log. simpl.
  rewrite (stepWorld_complete world_Step (bodies s) b Hc Hb).
  destruct (detectGoal_cases (get_x (GetPosition b)))
    as [[Hx ->] | [[Hx ->] | [Hx ->]]]; simpl.
  1, 2: split; [by apply complete_resetBodies|]; eexists; split; [reflexivity|];
        simpl; split; [tauto|]; split; [|done];
        by apply resetBodies_kickoff.
  split; [done|]. eexists. split; [reflexivity | done].
Qed.

Section Goals.

Variable world_Step : Q -> Z -> Z -> gmap string b2Body -> gmap string b2Body.

Hypothesis world_Step_complete :
  forall dt vIter pIter bs, complete bs -> complete (world_Step dt vIter pIter bs).

(** X6.  From the world of [setupWorld], whatever the page sends and however
    many ticks pass, every goal message the worker has posted names the
    side ['left'] or ['right'] and is followed at once by a snapshot that
    shows the kick-off: ball and players at their starting places, at
    rest. *)
Theorem goals_answered_by_kickoff events :
  goalsAnswered (posted (run world_Step events (mkState setupWorld []))).
Proof.
  assert (forall s0, complete (bodies s0) -> goalsAnswered (posted s0) ->
            goalsAnswered (posted (run world_Step events s0))) as H.
  { induction events as [|e events IH]; intros s0 Hc Hg; [done|].
    simpl. apply IH.
    - destruct e as [|data].
      + apply tick_block. by apply world_Step_complete.
      + by apply onmessage_complete.
    - destruct e as [|data].
      + destruct (tick_block world_Step s0) as (_ & block & -> & Hb);
          [by apply world_Step_complete|]. by apply goalsAnswered_app.
      + simpl. by rewrite (proj2 (onmessage_complete data s0 Hc)). }
  apply H; [|done].
  unfold complete. repeat split; eexists; vm_compute; reflexivity.
Qed.

End Goals.

Lemma drift_complete dt vIter pIter bs :
  complete bs -> complete (drift dt vIter pIter bs).
Proof.
  intros ([b Hb] & [b1 H1] & [b2 H2]). unfold complete, drift.
  rewrite !lookup_fmap, Hb, H1, H2. simpl. eauto.
Qed.

Lemma wind_complete dt vIter pIter bs :
  complete bs -> complete (wind dt vIter pIter bs).
Proof. apply complete_alter. Qed.

(** The wind blows the ball over the left line on the first tick. *)
Lemma goals_answered_by_kickoff_witness :
  goalsAnswered
    (posted (run wind
               [Receive (MsgInput "1" (Input.mk true false false false));
                Tick; Receive MsgReset; Tick]
               (mkState setupWorld []))).
Proof. exact (goals_answered_by_kickoff wind wind_complete _). Defined.

Lemma snapshots_always_in_bounds_witness :
  length (states (posted (run drift
                            [Tick; Receive (MsgSuper "2"); Tick; Tick]
                            (mkState setupWorld []))))
  = 3%nat.
Proof.
  exact (proj1 (proj2 (snapshots_always_in_bounds drift drift_complete
                         [Tick; Receive (MsgSuper "2"); Tick; Tick]))).
Defined.

(** X8.  A player whose disc has sunk less than 0.05 into the ground (its
    centre is higher than [groundTop + PLAYER_RADIUS - 0.05], which is
    0.35, the limit of the jump test) gets no impulse from a jump command:
    its vertical velocity stays what it was.  A disc of radius 0.3 resting
    on the ground has its centre at 0.4. *)
Theorem no_jump_from_the_ground s id b input :
  bodies s !! id = Some b ->
  groundTop + PLAYER_RADIUS - 0.05 < get_y (GetPosition b) ->
  groundTop + PLAYER_RADIUS == 0.4
  /\ exists b',
      bodies (snd (handleInput id input s)) !! id = Some b'
      /\ get_y (GetLinearVelocity b') == get_y (GetLinearVelocity b).
Proof.
  intros Hb Hy. split; [reflexivity|].
  destruct (handleInput_body s id b input Hb) as (b' & H1 & _ & _ & _ & H4).
  exists b'. split; [done|].
  assert (JS.leb (get_y (GetPosition b)) (PLAYER_RADIUS + 0.05) = false) as Hg.
  { apply JSFacts.leb_gt. unfold groundTop, PLAYER_RADIUS in *. lra. }
  rewrite Hg, andb_false_r in H4. simpl in H4. rewrite H4. ring.
Qed.

Lemma no_jump_from_the_ground_witness :
  let b := mkBody (mkVec 2 0.4) 0 (mkVec 0 0) 0 0.28 in
  let s := mkState (<["1" := b]> setupWorld) [] in
  exists b',
    bodies (snd (handleInput "1" (Input.mk false false true false) s)) !! "1" = Some b'
    /\ get_y (GetLinearVelocity b') == 0.
Proof.
  intros b s.
  destruct (no_jump_from_the_ground s "1" b (Input.mk false false true false))
    as (_ & b' & H1 & H2).
  - vm_compute. reflexivity.
  - vm_compute. reflexivity.
  - exists b'. split; [exact H1 | exact H2].
Defined.

End WorkerFacts.

(** ** The persisted replay collection *)

Module ReplaysFacts.
Import Replays.




End ReplaysFacts.

(** ** The replay player *)

Module ReplayFacts.
Import Replay.

Lemma ofNat_S k : ofNat (S k) == ofNat k + 1.
Proof. unfold ofNat. rewrite Nat2Z.inj_succ, <- Z.add_1_r, inject_Z_plus. reflexivity. Qed.

Lemma ofNat_le a b : (a <= b)%nat -> ofNat a <= ofNat b.
Proof. intros H. unfold ofNat. rewrite <- Zle_Qle. lia. Qed.

Section Play.

Variable frames : list Frame.
Variables speed scale offsetX offsetY rendererWidth : Q.
Hypothesis speed_pos : 0 < speed.


Lemma frameDuration_pos : 0 < frameDuration speed.
Proof.
  unfold frameDuration, Qdiv. apply Qmult_lt_0_compat; [reflexivity|].
  by apply Qinv_lt_0_compat.
Qed.

Lemma drain_spec turns : forall p,
  (currentIndex p + turns = totalFrames frames)%nat ->
  settled frames scale offsetX offsetY rendererWidth p ->
  let p' := drain frames speed scale offsetX offsetY rendererWidth turns p in
  settled frames scale offsetX offsetY rendererWidth p'
  /\ (currentIndex p <= currentIndex p')%nat
  /\ elapsed p' + ofNat (currentIndex p') * frameDuration speed == elapsed p + ofNat (currentIndex p) * frameDuration speed
  /\ ((currentIndex p' < totalFrames frames)%nat -> elapsed p' < frameDuration speed)
  /\ ticking p' = ticking p.
Proof.
  induction turns as [|turns IH]; intros p Hk Hp; simpl.
  - repeat split; try apply Hp; try lia; try reflexivity.
  - destruct (JS.leb (frameDuration speed) (elapsed p)) eqn:Hfd; simpl.
    + assert ((currentIndex p <? totalFrames frames)%nat = true) as -> by (apply Nat.ltb_lt; lia).
      destruct (lookup_lt_is_Some_2 frames (currentIndex p)) as [f Hf];
        [unfold totalFrames in Hk; lia|].
      rewrite Hf. apply JSFacts.leb_le in Hfd.
      destruct Hp as (Hp1 & Hp2 & Hp3 & Hp4).
      edestruct (IH (mkPlayer (S (currentIndex p)) (elapsed p - frameDuration speed)
                   (show scale offsetX offsetY rendererWidth f (view p))
                   (applied p ++ [f]) (ticking p))) as (H1 & H2 & H3 & H4 & H5).
      { simpl. lia. }
      { unfold settled. simpl. split; [unfold totalFrames in *; lia|].
        split; [by rewrite (take_S_r _ _ _ Hf), Hp2|].
        split; [by rewrite foldl_snoc, Hp3|]. lra. }
      simpl in *. split; [exact H1|]. split; [lia|]. split; [|split; [exact H4 | exact H5]].
      rewrite H3, ofNat_S. lra.
    + apply JSFacts.leb_gt in Hfd.
      split; [exact Hp|]. split; [lia|]. split; [reflexivity|]. split; [done|done].
Qed.


Lemma update_spec d p T :
  0 <= d ->
  ticking p = true ->
  settled frames scale offsetX offsetY rendererWidth p ->
  ((currentIndex p < totalFrames frames)%nat ->
   elapsed p + ofNat (currentIndex p) * frameDuration speed == T
   /\ elapsed p < frameDuration speed) ->
  (currentIndex p = totalFrames frames -> ofNat (totalFrames frames) * frameDuration speed <= T) ->
  let p' := update frames speed scale offsetX offsetY rendererWidth d p in
  settled frames scale offsetX offsetY rendererWidth p'
  /\ ((currentIndex p' < totalFrames frames)%nat ->
      elapsed p' + ofNat (currentIndex p') * frameDuration speed == T + d
      /\ elapsed p' < frameDuration speed)
  /\ (currentIndex p' = totalFrames frames ->
      ofNat (totalFrames frames) * frameDuration speed <= T + d)
  /\ (ticking p' = false -> currentIndex p' = totalFrames frames).
Proof.
  intros Hd Htick Hp Hlt Heq. unfold update.
  destruct (totalFrames frames <=? currentIndex p)%nat eqn:Hk.
  - apply Nat.leb_le in Hk. destruct Hp as (Hp1 & Hp2 & Hp3 & Hp4). simpl.
    assert (currentIndex p = totalFrames frames) as Hn by lia.
    split; [by repeat split|]. split; [lia|]. split; [|done].
    intros _. specialize (Heq Hn). lra.
  - apply Nat.leb_gt in Hk. destruct (Hlt Hk) as [HT Hfd].
    edestruct (drain_spec (totalFrames frames - currentIndex p)
                 (mkPlayer (currentIndex p) (elapsed p + d) (view p) (applied p)
                           (ticking p))) as (H1 & H2 & H3 & H4 & H5).
    { simpl. lia. }
    { destruct Hp as (Hp1 & Hp2 & Hp3 & Hp4). repeat split; simpl; try done. lra. }
    simpl in *. split; [exact H1|]. split; [|split].
    + intros Hk'. split; [lra | by apply H4].
    + intros Hk'. rewrite Hk' in H3. destruct H1 as (_ & _ & _ & H0). lra.
    + rewrite H5. congruence.
Qed.

Lemma run_spec deltas : forall p T,
  Forall (fun d => 0 <= d) deltas ->
  settled frames scale offsetX offsetY rendererWidth p -> onTime frames speed p T ->
  settled frames scale offsetX offsetY rendererWidth
    (run frames speed scale offsetX offsetY rendererWidth deltas p)
  /\ onTime frames speed
       (run frames speed scale offsetX offsetY rendererWidth deltas p)
           (T + total deltas).
Proof.
  induction deltas as [|d deltas IH]; intros p T Hpos Hp Ht; simpl.
  - split; [done|]. destruct Ht as (H1 & H2 & H3). unfold onTime.
    split; [|split]; [intros Hk; destruct (H1 Hk); split; [lra|done]
                     |intros Hk; specialize (H2 Hk); lra | done].
  - inversion Hpos as [|? ? Hd Hpos']; subst.
    assert (0 <= total deltas) as Hnn.
    { clear -Hpos'. induction Hpos' as [|? ? ? ? IH']; simpl; [lra|]. lra. }
    destruct (ticking p) eqn:Htick.
    + destruct Ht as (H1 & H2 & H3).
      destruct (update_spec d p T Hd Htick Hp H1 H2) as (G1 & G2 & G3 & G4).
      destruct (IH _ (T + d) Hpos' G1 (conj G2 (conj G3 G4))) as [R1 R2].
      split; [exact R1|]. destruct R2 as (R2 & R3 & R4).
      split; [|split]; [intros Hk; destruct (R2 Hk); split; [lra|done]
                       |intros Hk; specialize (R3 Hk); lra | done].
    + split; [done|]. destruct Ht as (H1 & H2 & H3).
      specialize (H3 Htick). specialize (H2 H3).
      split; [|split]; [intros; lia | intros; simpl; lra | done].
Qed.



End Play.


(** *** The end of a replay and what it shows *)

Section Ending.

Variable frames : list Frame.
Variables speed scale offsetX offsetY rendererWidth : Q.
Hypothesis speed_pos : 0 < speed.

Lemma replay_run_app deltas1 deltas2 : forall p,
  run frames speed scale offsetX offsetY rendererWidth (deltas1 ++ deltas2) p
  = run frames speed scale offsetX offsetY rendererWidth deltas2
      (run frames speed scale offsetX offsetY rendererWidth deltas1 p).
Proof.
  induction deltas1 as [|d deltas1 IH]; intros p; [done|].
  simpl. destruct (ticking p) eqn:Ht; [apply IH|].
  destruct deltas2; simpl; by rewrite ?Ht.
Qed.

Lemma run_detached deltas p :
  ticking p = false ->
  run frames speed scale offsetX offsetY rendererWidth deltas p = p.
Proof. intros Ht. destruct deltas; simpl; by rewrite ?Ht. Qed.

Lemma playReplay_settled :
  settled frames scale offsetX offsetY rendererWidth playReplay
  /\ onTime frames speed playReplay 0.
Proof.
  pose proof (frameDuration_pos speed speed_pos) as Hfd.
  split.
  - unfold settled, playReplay. simpl. split; [lia|]. split; [by rewrite take_0|].
    split; [done | lra].
  - unfold onTime, playReplay. simpl. split; [intros _; split; [|done]|split; [|done]].
    + change (ofNat 0) with 0. lra.
    + intros <-. change (ofNat 0) with 0. lra.
Qed.


(** The scene depends on the last frame shown only. *)
Lemma show_last l :
  foldl (fun v f => show scale offsetX offsetY rendererWidth f v) blank l
  = match last l with
    | Some f => show scale offsetX offsetY rendererWidth f blank
    | None => blank
    end.
Proof.
  induction l as [|f l _] using rev_ind; [done|].
  by rewrite foldl_snoc, last_snoc.
Qed.


End Ending.



End ReplayFacts.

(** ** The match orchestrator and the AI policy *)

Module MatchFacts.
Import Match.

Section Scene.

Variable options : Options.
Variable level : string.

Lemma clock_record turns frame m : clock (record turns frame m) = clock m.
Proof.
  revert m. induction turns as [|turns IH]; intros m; simpl; [done|].
  destruct (JS.leb _ _); [|done]. by rewrite IH.
Qed.

Lemma clock_finishFrame d m : clock (finishFrame options d m) = clock m.
Proof.
  unfold finishFrame.
  repeat match goal with
         | |- context [match ?x with _ => _ end] => destruct x
         end; rewrite ?clock_record; reflexivity.
Qed.

Lemma clock_aiControl d r m : clock (aiControl options level d r m) = clock m.
Proof.
  unfold aiControl.
  repeat match goal with
         | |- context [match ?x with _ => _ end] => destruct x
         end; reflexivity.
Qed.

Lemma clock_sendPlayerInput m : clock (sendPlayerInput options m) = clock m.
Proof. unfold sendPlayerInput. by destruct (negb _). Qed.

(** After the timer block, no statement of [update] writes the scores, the
    remaining time, [overtime] or ends the match. *)
Lemma clock_update d r m : clock (update options level d r m) = clock (afterTimer options level d m).
Proof.
  unfold update, afterTimer. destruct (countDown options level d m) as [m1 []]; [done|].
  by rewrite clock_finishFrame, clock_aiControl, clock_sendPlayerInput.
Qed.

Lemma phase_clock m m' : clock m = clock m' -> phase m = phase m'.
Proof. unfold clock, phase. intros [= _ _ _ -> -> _]. reflexivity. Qed.

Lemma timeLeftMs_clock m m' : clock m = clock m' -> timeLeftMs m = timeLeftMs m'.
Proof. unfold clock. by intros [= _ _ -> _ _ _]. Qed.

Lemma ended_clock m m' : clock m = clock m' -> ended m = ended m'.
Proof. unfold clock. by intros [= _ _ _ _ -> _]. Qed.

Lemma timerText_clock m m' : clock m = clock m' -> timerText m = timerText m'.
Proof. unfold clock. by intros [= _ _ _ _ _ ->]. Qed.

(** C1.  When regulation time expires (the decremented time is 0 or
    below) with equal scores, the match enters Overtime with exactly 30000
    ms on the clock; when it expires with different scores, the match goes
    straight to Ended; and a goal message received during Overtime ends the
    match, whatever time remains. *)
Theorem phase_transitions m deltaMS random scorer :
  (phase m = Regulation -> timeLeftMs m - deltaMS <= 0 ->
   scoreLeft m = scoreRight m ->
   phase (update options level deltaMS random m) = Overtime
   /\ timeLeftMs (update options level deltaMS random m) = 30000)
  /\ (phase m = Regulation -> timeLeftMs m - deltaMS <= 0 ->
      scoreLeft m <> scoreRight m ->
      phase (update options level deltaMS random m) = Ended)
  /\ (phase m = Overtime -> phase (onmessage options level (MsgGoal scorer) m) = Ended).
Proof.
  assert (Hreg : phase m = Regulation -> ended m = false /\ overtime m = false).
  { unfold phase. destruct (ended m), (overtime m); by intros. }
  pose proof (clock_update deltaMS random m) as Hc.
  split; [|split].
  - intros Hp Ht Hs. destruct (Hreg Hp) as [He Ho].
    apply JSFacts.leb_le in Ht. revert Hc. unfold afterTimer, countDown. simpl.
    rewrite Ho, Ht. simpl. rewrite Hs, Z.eqb_refl. intros Hc.
    rewrite (phase_clock _ _ Hc), (timeLeftMs_clock _ _ Hc).
    unfold phase. simpl. by rewrite He.
  - intros Hp Ht Hs. destruct (Hreg Hp) as [He Ho].
    apply JSFacts.leb_le in Ht. apply Z.eqb_neq in Hs. revert Hc.
    unfold afterTimer, countDown. simpl. rewrite Ho, Ht. simpl. rewrite Hs.
    intros Hc.
    by rewrite (phase_clock _ _ Hc).
  - unfold phase at 1. intros Hp.
    destruct (ended m) eqn:He, (overtime m) eqn:Ho; try discriminate.
    unfold onmessage. destruct (String.eqb scorer "left"); simpl;
      rewrite Ho; reflexivity.
Qed.

(** C9, as the code has it.  The remaining time is not clamped: [update]
    subtracts the frame delta and tests the result, negative or not, with
    [<= 0].  A result of 0 or below always triggers a transition in that
    same call: Overtime with the time set to 30000, or the end of the
    match, which leaves the value as it is.  So after a call that does not
    end the match the remaining time is positive, and only the seconds put
    on display are clamped, by [max(0, ceil(t / 1000))]. *)
Theorem remaining_time_unclamped m deltaMS random :
  ended m = false ->
  let m' := update options level deltaMS random m in
  (ended m' = true ->
   timeLeftMs m' = timeLeftMs m - deltaMS /\ timeLeftMs m' <= 0)
  /\ (ended m' = false ->
      0 < timeLeftMs m'
      /\ (timeLeftMs m' = timeLeftMs m - deltaMS \/ timeLeftMs m' = 30000)
      /\ let shown := Z.max 0 (JS.Math_ceil (timeLeftMs m' / 1000)) in
         timerText m' = ((shown / 60)%Z, (shown mod 60)%Z) /\ (0 <= shown)%Z).
Proof.
  intros He m'. pose proof (clock_update deltaMS random m) as Hc. fold m' in Hc.
  rewrite (ended_clock _ _ Hc), (timeLeftMs_clock _ _ Hc), (timerText_clock _ _ Hc).
  clear Hc m'. unfold afterTimer, countDown. simpl.
  destruct (overtime m) eqn:Ho; simpl;
    destruct (JS.leb (timeLeftMs m - deltaMS) 0) eqn:Ht; simpl;
    try destruct (scoreLeft m =? scoreRight m)%Z; simpl; rewrite ?He;
    js_cases; (split; [intros [=] + (intros _; split; [reflexivity | assumption])
                      | intros [=] + intros _]);
    repeat split; auto using Z.le_max_l; try reflexivity.
Qed.

End Scene.

(** The 90 s of regulation pass without a goal: Overtime at 30000;
    with [1 : 0] on the board the match ends instead; a goal in Overtime
    ends it. *)
Lemma phase_transitions_witness :
  let o := menuOptions "Rookie" in
  let tied := startMatch in
  let ahead := onmessage o "Rookie" (MsgGoal "left") startMatch in
  let extra := update o "Rookie" 90000 0 startMatch in
  (phase (update o "Rookie" 90000 0 tied) = Overtime
   /\ timeLeftMs (update o "Rookie" 90000 0 tied) = 30000)
  /\ phase (update o "Rookie" 90000 0 ahead) = Ended
  /\ phase (onmessage o "Rookie" (MsgGoal "right") extra) = Ended.
Proof.
  intros o tied ahead extra. split; [split | split].
  - refine (proj1 (proj1 (phase_transitions o "Rookie" tied 90000 0 "") _ _ _));
      vm_compute; first [reflexivity | discriminate].
  - refine (proj2 (proj1 (phase_transitions o "Rookie" tied 90000 0 "") _ _ _));
      vm_compute; first [reflexivity | discriminate].
  - refine (proj1 (proj2 (phase_transitions o "Rookie" ahead 90000 0 "")) _ _ _);
      vm_compute; first [reflexivity | discriminate].
  - refine (proj2 (proj2 (phase_transitions o "Rookie" extra 0 0 "right")) _).
    vm_compute. reflexivity.
Defined.

Lemma remaining_time_unclamped_witness :
  let m := update (menuOptions "Rookie") "Rookie" 89000 0 startMatch in
  0 < timeLeftMs m.
Proof.
  intros m.
  refine (proj1 (proj2 (remaining_time_unclamped (menuOptions "Rookie") "Rookie"
                          startMatch 89000 0 _) _)); reflexivity.
Defined.

(** C9, as stated, fails: with [1 : 0] on the board and 10 ms left, a
    frame of 50 ms leaves -40 in [timeLeftMs]; it is this negative value
    that the expiry test sees, and the match ends with it. *)
Lemma remaining_time_goes_negative :
  let m := run (menuOptions "Rookie") "Rookie"
             [Message (MsgGoal "left"); Frame 89990 0] startMatch in
  let m' := update (menuOptions "Rookie") "Rookie" 50 0 m in
  ended m = false
  /\ timeLeftMs m == 10
  /\ timeLeftMs m' == -40
  /\ timeLeftMs m' < 0
  /\ ended m' = true.
Proof. vm_compute. repeat split; intros; discriminate. Qed.

Section Policy.

Variable options : Options.
Variable level : string.

Lemma aiCommands_app l1 l2 : aiCommands (l1 ++ l2) = aiCommands l1 ++ aiCommands l2.
Proof. unfold aiCommands. apply omap_app. Qed.

Lemma record_shape turns frame m :
  exists acc fs, record turns frame m = set_recorder acc fs m.
Proof.
  revert m. induction turns as [|turns IH]; intros m; simpl.
  - exists (recordAccumulator m), (replayFrames m). by destruct m.
  - destruct (JS.leb _ _).
    + destruct (IH (set_recorder (recordAccumulator m - 100)
                      (replayFrames m ++ [frame]) m)) as (acc & fs & ->).
      by exists acc, fs.
    + exists (recordAccumulator m), (replayFrames m). by destruct m.
Qed.

Lemma aiView_finishFrame d m : aiView (finishFrame options d m) = aiView m.
Proof.
  unfold finishFrame.
  repeat match goal with
         | |- context [match ?x with _ => _ end] => destruct x
         end; try reflexivity.
  match goal with |- context [record ?n ?f ?m0] =>
    destruct (record_shape n f m0) as (acc & fs & ->) end.
  reflexivity.
Qed.

Lemma aiControl_latest d r m :
  latestState (aiControl options level d r m) = latestState m.
Proof.
  unfold aiControl.
  repeat match goal with
         | |- context [match ?x with _ => _ end] => destruct x eqn:?
         end; simpl; congruence.
Qed.

(** Between decisions the block leaves the command alone, takes the frame
    time off the countdown and posts the command once. *)
Lemma aiControl_hold d r m :
  d < aiDecisionCountdown m ->
  aiLastInput (aiControl options level d r m) = aiLastInput m
  /\ ended (aiControl options level d r m) = ended m
  /\ latestState (aiControl options level d r m) = latestState m
  /\ if aiOn options && bool_decide (is_Some (latestState m))
     then aiDecisionCountdown (aiControl options level d r m) = aiDecisionCountdown m - d
          /\ sent (aiControl options level d r m)
             = sent m ++ [MsgInput "2" (aiLastInput m)]
     else aiControl options level d r m = m.
Proof.
  intros Hd. unfold aiControl.
  destruct (latestState m) as [state|] eqn:Hs; simpl.
  - destruct (aiOn options); simpl.
    + assert (JS.leb (aiDecisionCountdown m - d) 0 = false) as ->
        by (apply JSFacts.leb_gt; lra).
      simpl. rewrite Hs. repeat split.
    + rewrite Hs. done.
  - rewrite Hs. rewrite andb_false_r. done.
Qed.


Lemma sendPlayerInput_ai m :
  aiLastInput (sendPlayerInput options m) = aiLastInput m
  /\ aiDecisionCountdown (sendPlayerInput options m) = aiDecisionCountdown m
  /\ ended (sendPlayerInput options m) = ended m
  /\ latestState (sendPlayerInput options m) = latestState m
  /\ exists new, sent (sendPlayerInput options m) = sent m ++ new
                 /\ aiCommands new = [].
Proof.
  unfold sendPlayerInput. destruct (negb (isReplay options)); simpl.
  - repeat split. by exists [MsgInput "1" (playerInput m)].
  - repeat split. exists []. by rewrite app_nil_r.
Qed.

Lemma countDown_ai d m :
  aiView (fst (countDown options level d m))
  = (aiDecisionCountdown m, aiLastInput m, superCooldown2 m, latestState m,
     sent m, ended m || snd (countDown options level d m)).
Proof.
  unfold countDown, aiView. simpl.
  repeat match goal with
         | |- context [if ?x then _ else _] => destruct x
         end; simpl; rewrite ?orb_true_r, ?orb_false_r; reflexivity.
Qed.

(** One frame between decisions. *)
Lemma update_hold d r m :
  d < aiDecisionCountdown m ->
  let m' := update options level d r m in
  aiLastInput m' = aiLastInput m
  /\ latestState m' = latestState m
  /\ (aiDecisionCountdown m' = aiDecisionCountdown m - d
      \/ aiDecisionCountdown m' = aiDecisionCountdown m)
  /\ exists new,
      sent m' = sent m ++ new
      /\ Forall (eq (aiLastInput m)) (aiCommands new)
      /\ (aiOn options = true -> is_Some (latestState m) -> ended m' = false ->
          aiCommands new = [aiLastInput m]).
Proof.
  intros Hd m'. subst m'. unfold update.
  pose proof (countDown_ai d m) as Hc.
  destruct (countDown options level d m) as [m1 returned]. simpl in Hc.
  unfold aiView in Hc. injection Hc as Hc1 Hi1 _ Hs1 Hl1 He1.
  destruct returned.
  - rewrite Hi1, Hs1, Hc1, Hl1, He1. repeat split; auto.
    exists []. rewrite app_nil_r, orb_true_r. repeat split; auto. discriminate.
  - pose proof (aiView_finishFrame d
                  (aiControl options level d r (sendPlayerInput options (showTimer m1)))) as Hf.
    unfold aiView in Hf. injection Hf as -> -> _ -> -> ->.
    destruct (sendPlayerInput_ai (showTimer m1)) as (Hi2 & Hc2 & He2 & Hs2 & new & Hl2 & Hn).
    simpl in Hi2, Hc2, He2, Hs2, Hl2.
    destruct (aiControl_hold d r (sendPlayerInput options (showTimer m1)))
      as (Hi3 & He3 & Hs3 & Hon).
    { rewrite Hc2, Hc1. exact Hd. }
    rewrite Hi3, Hs3, Hi2, Hs2, Hi1, Hs1. split; [done|]. split; [done|].
    rewrite Hs2, Hs1, Hi2, Hi1, Hc2, Hc1 in Hon.
    destruct (aiOn options && bool_decide (is_Some (latestState m))) eqn:Hact.
    + destruct Hon as [-> ->]. split; [by left|].
      exists (new ++ [MsgInput "2" (aiLastInput m)]).
      rewrite Hl2, Hl1, app_assoc, aiCommands_app, Hn. simpl.
      repeat split; auto.
    + rewrite Hon, Hc2, Hc1, Hl2, Hl1. split; [by right|].
      exists new. rewrite Hn. repeat split; auto.
      intros Ho Hs. rewrite Ho in Hact. simpl in Hact.
      apply bool_decide_eq_false in Hact. done.
Qed.


(** Any one event between decisions. *)
Lemma handle_hold e m :
  match e with Frame d _ => 0 <= d /\ d < aiDecisionCountdown m | _ => True end ->
  let m' := handle options level e m in
  aiLastInput m' = aiLastInput m
  /\ (is_Some (latestState m) -> is_Some (latestState m'))
  /\ aiDecisionCountdown m - elapsedMs [e] <= aiDecisionCountdown m'
  /\ exists new,
      sent m' = sent m ++ new
      /\ Forall (eq (aiLastInput m)) (aiCommands new)
      /\ (aiOn options = true -> is_Some (latestState m) -> ended m' = false ->
          aiCommands new = replicate (frameCount [e]) (aiLastInput m)).
Proof.
  intros He m'. subst m'. unfold handle.
  destruct (ended m) eqn:Hend.
  { split; [done|]. split; [done|]. split.
    - destruct e; simpl; lra.
    - exists []. rewrite app_nil_r, Hend. split; [done|]. split; [constructor|].
      discriminate. }
  destruct e as [d r | [scorer | state] | code | code | key down]; simpl.
  - destruct He as [Hd0 Hd].
    destruct (update_hold d r m Hd) as (Hi & Hs & Hc & new & Hl & Hf & Hn).
    rewrite Hi, Hs. split; [done|]. split; [done|]. split.
    + destruct Hc as [-> | ->]; lra.
    + by exists new.
  - unfold onmessage.
    destruct (String.eqb scorer "left"); simpl; destruct (overtime m); simpl;
      (split; [done|]; split; [done|]; split; [lra|];
       exists []; rewrite app_nil_r; split; [done|]; split; [constructor|done]).
  - split; [done|]. split; [eauto|]. split; [lra|].
    exists []. rewrite app_nil_r. split; [done|]. split; [constructor|done].
  - unfold onKeyDown.
    destruct (String.eqb code "KeyK"); [destruct (_ && _)|]; simpl;
      (split; [done|]; split; [done|]; split; [lra|]).
    + exists [MsgSuper "1"]. split; [done|]. split; [constructor|done].
    + exists []. rewrite app_nil_r. split; [done|]. split; [constructor|done].
    + exists []. rewrite app_nil_r. split; [done|]. split; [constructor|done].
  - split; [done|]. split; [done|]. split; [lra|].
    exists []. rewrite app_nil_r. split; [done|]. split; [constructor|done].
  - split; [done|]. split; [done|]. split; [lra|].
    exists []. rewrite app_nil_r. split; [done|]. split; [constructor|done].
Qed.

Lemma run_ended events m : ended m = true -> run options level events m = m.
Proof.
  intros He. induction events as [|e events IH]; [done|].
  unfold run in *. simpl. unfold handle at 2. by rewrite He.
Qed.

Lemma elapsedMs_cons e events :
  elapsedMs (e :: events) == elapsedMs [e] + elapsedMs events.
Proof. destruct e; simpl; lra. Qed.

Lemma elapsedMs_nonneg events :
  Forall (fun e => match e with Frame d _ => 0 <= d | _ => True end) events ->
  0 <= elapsedMs events.
Proof.
  induction 1 as [|e events He _ IH]; simpl; [lra|]. destruct e; lra.
Qed.

(** A run of events between decisions: while the frames let less time pass
    than the countdown holds, the command stays what it was and is what
    every frame posts. *)
Lemma run_hold events : forall m,
  Forall (fun e => match e with Frame d _ => 0 <= d | _ => True end) events ->
  elapsedMs events < aiDecisionCountdown m ->
  let m' := run options level events m in
  aiLastInput m' = aiLastInput m
  /\ exists new,
      sent m' = sent m ++ new
      /\ Forall (eq (aiLastInput m)) (aiCommands new)
      /\ (aiOn options = true -> is_Some (latestState m) -> ended m' = false ->
          aiCommands new = replicate (frameCount events) (aiLastInput m)).
Proof.
  induction events as [|e events IH]; intros m Hpos Hlt; simpl.
  - split; [done|]. exists []. rewrite app_nil_r. split; [done|]. split; [constructor|done].
  - inversion Hpos as [|? ? He Hpos']; subst.
    pose proof (elapsedMs_nonneg events Hpos') as Hnn.
    pose proof (elapsedMs_cons e events) as Hcons.
    destruct (handle_hold e m) as (Hi & Hs & Hc & new1 & Hl1 & Hf1 & Hn1).
    { destruct e; try done. simpl in Hlt. split; [done|lra]. }
    destruct (IH (handle options level e m) Hpos') as (Hi2 & new2 & Hl2 & Hf2 & Hn2).
    { assert (elapsedMs [e] + elapsedMs events < aiDecisionCountdown m) by lra. lra. }
    unfold run in *. simpl in *. rewrite Hi2, Hi. split; [done|].
    exists (new1 ++ new2). rewrite Hl2, Hl1, app_assoc. split; [done|].
    rewrite aiCommands_app. rewrite Hi in Hf2, Hn2. split; [by apply Forall_app|].
    intros Hon Hsome Hend.
    assert (ended (handle options level e m) = false) as Hend1.
    { destruct (ended (handle options level e m)) eqn:E; [|done].
      fold (run options level events (handle options level e m)) in Hend.
      rewrite run_ended in Hend by done. congruence. }
    rewrite (Hn1 Hon Hsome Hend1), (Hn2 Hon (Hs Hsome) Hend).
    rewrite <- replicate_add. f_equal. destruct e; simpl; lia.
Qed.


(** The profile in force is one of the five of the table. *)
Lemma aiProfile_cases :
  aiProfile options level
  ∈ [mkProfile 0.30 15; mkProfile 0.25 12; mkProfile 0.20 9; mkProfile 0.15 6;
     mkProfile 0.12 3].
Proof.
  unfold aiProfile, aiProfiles, Rookie.
  rewrite !lookup_insert. repeat case_decide; rewrite ?lookup_empty;
    set_solver.
Qed.

Lemma aimOffset_range random :
  0 <= random < 1 ->
  - (aimError (aiProfile options level) / 90) <= aimOffset options level random
  /\ aimOffset options level random < aimError (aiProfile options level) / 90.
Proof.
  intros Hr. unfold aimOffset.
  pose proof aiProfile_cases as Hp. 
  repeat (apply elem_of_cons in Hp as [-> | Hp]); [..|by apply elem_of_nil in Hp]; simpl.
  all: unfold Qdiv; change (/ 90) with (1 # 90); lra.
Qed.

Lemma targetX_range ball random :
  0 <= targetX options level ball random <= WORLD_WIDTH
  /\ (0 <= BodyState.x ball + BodyState.vx ball * 0.5 + aimOffset options level random
          <= WORLD_WIDTH ->
      targetX options level ball random
      = BodyState.x ball + BodyState.vx ball * 0.5 + aimOffset options level random).
Proof.
  unfold targetX, predictionTime, WORLD_WIDTH.
  set (p := BodyState.x ball + BodyState.vx ball * 0.5 + aimOffset options level random).
  destruct (JSFacts.Math_max_spec p 0) as [[H1 ->] | [H1 ->]];
    [destruct (JSFacts.Math_min_spec 0 10) as [[H2 ->] | [H2 ->]]
    |destruct (JSFacts.Math_min_spec p 10) as [[H2 ->] | [H2 ->]]];
    (split; [lra | intros; first [reflexivity | exfalso; lra]]).
Qed.

(** The directions chosen at a decision. *)
Lemma decide_directions ball aiBody random cooldown2 :
  let cmd := (decide options level ball aiBody random cooldown2).1.1 in
  let diff := targetX options level ball random - BodyState.x aiBody in
  (Input.left cmd = true <-> diff < 0 /\ 0.05 < JS.Math_abs diff)
  /\ (Input.right cmd = true <-> 0 < diff /\ 0.05 < JS.Math_abs diff)
  /\ (JS.Math_abs diff <= 0.05 -> Input.left cmd = false /\ Input.right cmd = false).
Proof.
  intros cmd diff. subst cmd. unfold decide. fold diff.
  set (tx := targetX options level ball random) in *.
  destruct (JS.ltb 0.05 (JS.Math_abs diff)) eqn:Hband;
    destruct (JS.leb cooldown2 0 && _ && _); simpl.
  all: apply JSFacts.ltb_lt in Hband || apply JSFacts.ltb_ge in Hband.
  all: rewrite ?JSFacts.ltb_lt; subst diff.
  all: split; [|split]; try (intros; split; intros; lra); try lra.
  all: intros; split; apply JSFacts.ltb_ge; lra.
Qed.

Lemma decide_exclusive ball aiBody random cooldown2 :
  exclusive (decide options level ball aiBody random cooldown2).1.1.
Proof.
  destruct (decide_directions ball aiBody random cooldown2) as (Hl & Hr & _).
  unfold exclusive. apply andb_false_iff.
  destruct (Input.left _) eqn:El; [|by left]. right.
  destruct (Input.right _) eqn:Er; [|done].
  destruct Hl as [Hl _], Hr as [Hr _]. specialize (Hl eq_refl). specialize (Hr eq_refl). lra.
Qed.

(** The AI block at a decision instant. *)
Lemma aiControl_decision d r m state :
  aiOn options = true ->
  latestState m = Some state ->
  aiDecisionCountdown m - d <= 0 ->
  let m' := aiControl options level d r m in
  aiDecisionCountdown m' = reactionTime (aiProfile options level) * 1000
  /\ aiLastInput m'
     = match state !! "ball", state !! "2" with
       | Some ball, Some aiBody =>
           (decide options level ball aiBody r
              (JS.Math_max 0 (superCooldown2 m - d))).1.1
       | _, _ => aiLastInput m
       end
  /\ exists pre,
      sent m' = sent m ++ pre ++ [MsgInput "2" (aiLastInput m')]
      /\ aiCommands pre = [].
Proof.
  intros Hon Hs Hd m'. subst m'. unfold aiControl, aiOn in *.
  rewrite Hs, Hon. apply JSFacts.leb_le in Hd. rewrite Hd. simpl.
  destruct (state !! "ball") as [ball|]; [destruct (state !! "2") as [aiBody|]|].
  - destruct (decide _ _ _ _ _ _) as [[input cd] [|]]; simpl.
    + split; [done|]. split; [done|]. exists [MsgSuper "2"].
      by rewrite <- app_assoc.
    + split; [done|]. split; [done|]. by exists [].
  - simpl. split; [done|]. split; [done|]. by exists [].
  - simpl. split; [done|]. split; [done|]. by exists [].
Qed.

(** A frame that reaches the AI block at a decision instant. *)
Lemma update_decision d r m state :
  aiOn options = true ->
  latestState m = Some state ->
  snd (countDown options level d m) = false ->
  aiDecisionCountdown m - d <= 0 ->
  let m' := update options level d r m in
  aiDecisionCountdown m' = reactionTime (aiProfile options level) * 1000
  /\ latestState m' = Some state
  /\ aiLastInput m'
     = match state !! "ball", state !! "2" with
       | Some ball, Some aiBody =>
           (decide options level ball aiBody r
              (JS.Math_max 0 (superCooldown2 m - d))).1.1
       | _, _ => aiLastInput m
       end
  /\ exists pre,
      sent m' = sent m ++ pre ++ [MsgInput "2" (aiLastInput m')]
      /\ aiCommands pre = [].
Proof.
  intros Hon Hs Hret Hd m'. subst m'. unfold update.
  pose proof (countDown_ai d m) as Hc.
  destruct (countDown options level d m) as [m1 returned]. simpl in Hc, Hret.
  subst returned. unfold aiView in Hc. injection Hc as Hc1 Hi1 Hk1 Hs1 Hl1 He1.
  pose proof (aiView_finishFrame d
                (aiControl options level d r (sendPlayerInput options (showTimer m1)))) as Hf.
  unfold aiView in Hf. injection Hf as -> -> _ -> -> _.
  destruct (sendPlayerInput_ai (showTimer m1)) as (Hi2 & Hc2 & He2 & Hs2 & new & Hl2 & Hn).
  simpl in Hi2, Hc2, He2, Hs2, Hl2.
  assert (superCooldown2 (sendPlayerInput options (showTimer m1)) = superCooldown2 m) as Hk2.
  { unfold sendPlayerInput. by destruct (negb _). }
  destruct (aiControl_decision d r (sendPlayerInput options (showTimer m1)) state Hon)
    as (Hc3 & Hi3 & pre & Hl3 & Hp).
  { by rewrite Hs2, Hs1. }
  { by rewrite Hc2, Hc1. }
  split; [done|]. split.
  { pose proof (aiControl_latest d r (sendPlayerInput options (showTimer m1))) as ->.
    by rewrite Hs2, Hs1. }
  split.
  { rewrite Hi3, Hk2, Hi2, Hi1. done. }
  exists (new ++ pre). rewrite Hl3, Hl2, Hl1, aiCommands_app, Hn, Hp.
  by rewrite <- !app_assoc.
Qed.

Lemma exclusive_snoc l i :
  Forall exclusive (aiCommands l) -> exclusive i ->
  Forall exclusive (aiCommands (l ++ [MsgInput "2" i])).
Proof.
  intros Hl Hi. rewrite aiCommands_app. apply Forall_app. split; [done|].
  simpl. by constructor.
Qed.

Lemma exclusive_super l :
  Forall exclusive (aiCommands l) ->
  Forall exclusive (aiCommands (l ++ [MsgSuper "2"])).
Proof. intros Hl. by rewrite aiCommands_app, app_nil_r. Qed.

Lemma aiControl_exclusive d r m :
  keepsExclusive m -> keepsExclusive (aiControl options level d r m).
Proof.
  intros [Hi Hl]. unfold keepsExclusive, aiControl.
  destruct (latestState m) as [state|]; [|by split].
  destruct (aiOn options); [|by split].
  destruct (JS.leb (aiDecisionCountdown m - d) 0); simpl.
  - destruct (state !! "ball") as [ball|]; [destruct (state !! "2") as [aiBody|]|];
      simpl; try (split; [done | by apply exclusive_snoc]).
    pose proof (decide_exclusive ball aiBody r (JS.Math_max 0 (superCooldown2 m - d)))
      as Hd.
    destruct (decide _ _ _ _ _ _) as [[input cd] [|]]; simpl in *.
    + split; [done|]. apply exclusive_snoc; [|done]. by apply exclusive_super.
    + split; [done|]. by apply exclusive_snoc.
  - split; [done|]. by apply exclusive_snoc.
Qed.

Lemma handle_exclusive e m :
  keepsExclusive m -> keepsExclusive (handle options level e m).
Proof.
  intros Hm. unfold handle. destruct (ended m); [done|].
  destruct e as [d r | [scorer | state] | code | code | key down].
  - unfold update.
    pose proof (countDown_ai d m) as Hc.
    destruct (countDown options level d m) as [m1 returned]. simpl in Hc.
    unfold aiView in Hc. injection Hc as _ Hi1 _ _ Hl1 _.
    assert (keepsExclusive m1) as H1.
    { unfold keepsExclusive. by rewrite Hi1, Hl1. }
    destruct returned; [done|].
    pose proof (aiView_finishFrame d
                  (aiControl options level d r (sendPlayerInput options (showTimer m1)))) as Hf.
    unfold aiView in Hf. injection Hf as _ Hi _ _ Hl _.
    unfold keepsExclusive at 1. rewrite Hi, Hl. apply aiControl_exclusive.
    destruct (sendPlayerInput_ai (showTimer m1)) as (Hi2 & _ & _ & _ & new & Hl2 & Hn).
    unfold keepsExclusive. rewrite Hi2, Hl2, aiCommands_app, Hn, app_nil_r.
    exact H1.
  - unfold onmessage.
    destruct (String.eqb scorer "left"); simpl; destruct (overtime m); exact Hm.
  - exact Hm.
  - unfold onKeyDown. destruct Hm as [Hi Hl].
    destruct (String.eqb code "KeyK"); [destruct (_ && _)|]; try (by split).
    split; [done|]. simpl. rewrite aiCommands_app, app_nil_r. done.
  - exact Hm.
  - exact Hm.
Qed.


(** C7.  At a decision the target is the ball's horizontal position
    predicted 0.5 s ahead, [ball.x + ball.vx * 0.5], plus the offset
    [(random - 0.5) * 2 * (aimError / 90)], which for [random] in [0, 1)
    lies in [-aimError/90, aimError/90], clamped into [0, WORLD_WIDTH].
    The command posted has [left] exactly when target minus own position
    is negative and beyond the 0.05 dead-band, [right] exactly when it is
    positive and beyond it, and neither inside the dead-band. *)
Theorem ai_decision m deltaMS random state ball aiBody :
  aiOn options = true ->
  latestState m = Some state ->
  state !! "ball" = Some ball ->
  state !! "2" = Some aiBody ->
  snd (countDown options level deltaMS m) = false ->
  aiDecisionCountdown m - deltaMS <= 0 ->
  0 <= random < 1 ->
  let cmd := aiLastInput (update options level deltaMS random m) in
  let bound := aimError (aiProfile options level) / 90 in
  let err := (random - 0.5) * 2 * bound in
  let predictedX := BodyState.x ball + BodyState.vx ball * 0.5 in
  let target := targetX options level ball random in
  let diff := target - BodyState.x aiBody in
  (- bound <= err /\ err <= bound)
  /\ target = JS.Math_min (JS.Math_max (predictedX + err) 0) WORLD_WIDTH
  /\ (0 <= target /\ target <= WORLD_WIDTH)
  /\ (0 <= predictedX + err <= WORLD_WIDTH -> target = predictedX + err)
  /\ (Input.left cmd = true <-> diff < 0 /\ 0.05 < JS.Math_abs diff)
  /\ (Input.right cmd = true <-> 0 < diff /\ 0.05 < JS.Math_abs diff)
  /\ (JS.Math_abs diff <= 0.05 -> Input.left cmd = false /\ Input.right cmd = false)
  /\ last (sent (update options level deltaMS random m)) = Some (MsgInput "2" cmd).
Proof.
  intros Hon Hs Hball Hai Hret Hd Hr cmd bound err predictedX target diff.
  destruct (update_decision deltaMS random m state Hon Hs Hret Hd)
    as (_ & _ & Hi & pre & Hl & _).
  rewrite Hball, Hai in Hi. fold cmd in Hi, Hl.
  destruct (aimOffset_range random Hr) as [Ho1 Ho2].
  destruct (targetX_range ball random) as [Ht1 Ht2].
  pose proof (decide_directions ball aiBody random
                (JS.Math_max 0 (superCooldown2 m - deltaMS))) as Hdir.
  simpl in Hdir. rewrite <- Hi in Hdir. fold target diff in Hdir.
  split. { unfold err, bound. unfold aimOffset in Ho1, Ho2. lra. }
  split; [reflexivity|]. split; [exact Ht1|]. split; [exact Ht2|].
  destruct Hdir as (H1 & H2 & H3). split; [exact H1|]. split; [exact H2|].
  split; [exact H3|]. by rewrite Hl, app_assoc, last_snoc.
Qed.

(** C10.  No command posted for the AI, in any run of a match, has both
    [left] and [right] set: a decision sets [left] only when the target is
    strictly left of the AI's body and [right] only when it is strictly
    right. *)
Theorem ai_directions_exclusive events :
  Forall exclusive (aiCommands (sent (run options level events startMatch)))
  /\ forall ball aiBody random cooldown2,
      let cmd := (decide options level ball aiBody random cooldown2).1.1 in
      (Input.left cmd = true -> targetX options level ball random < BodyState.x aiBody)
      /\ (Input.right cmd = true -> BodyState.x aiBody < targetX options level ball random).
Proof.
  split.
  - assert (forall m, keepsExclusive m -> keepsExclusive (run options level events m)) as H.
    { induction events as [|e events' IH]; intros m Hm; [done|].
      apply (IH (handle options level e m)). by apply handle_exclusive. }
    apply (H startMatch). split; [done | constructor].
  - intros ball aiBody random cooldown2 cmd.
    destruct (decide_directions ball aiBody random cooldown2) as ([Hl _] & [Hr _] & _).
    fold cmd in Hl, Hr. split; intros H; [apply Hl in H | apply Hr in H]; lra.
Qed.

End Policy.


Lemma ai_decision_witness :
  let o := menuOptions "Rookie" in
  let m := onmessage o "Rookie" (MsgState (snapshotWith 7 3 0 8)) startMatch in
  last (sent (update o "Rookie" 16 0.5 m))
  = Some (MsgInput "2" (aiLastInput (update o "Rookie" 16 0.5 m))).
Proof.
  intros o m.
  refine (proj2 (proj2 (proj2 (proj2 (proj2 (proj2 (proj2
            (ai_decision o "Rookie" m 16 0.5 (snapshotWith 7 3 0 8)
               (BodyState.mk 7 3 0 0) (BodyState.mk 8 1 0 0) _ _ _ _ _ _ _)))))))).
  - reflexivity.
  - reflexivity.
  - vm_compute. reflexivity.
  - vm_compute. reflexivity.
  - reflexivity.
  - vm_compute. discriminate.
  - split; vm_compute; [discriminate | reflexivity].
Defined.

(** *** More of the match *)

Section Rules.

Variable options : Options.
Variable level : string.

(** What the handlers other than the ticker callback and the goal message
    do to the clock: nothing. *)
Lemma clock_handle_other e m :
  ended m = false ->
  match e with Frame _ _ | Message (MsgGoal _) => False | _ => True end ->
  clock (handle options level e m) = clock m.
Proof.
  intros He Hk. unfold handle. rewrite He.
  destruct e as [d r | [scorer | state] | code | code | key down]; try done.
  unfold onKeyDown. by destruct (String.eqb code "KeyK"); [destruct (_ && _)|].
Qed.

(** The clock after a goal message. *)
Lemma clock_goal scorer m :
  clock (onmessage options level (MsgGoal scorer) m)
  = ((scoreLeft m + if String.eqb scorer "left" then 1 else 0)%Z,
     (scoreRight m + if String.eqb scorer "left" then 0 else 1)%Z,
     timeLeftMs m, overtime m, ended m || overtime m, timerText m).
Proof.
  unfold onmessage, clock. destruct m as [? ? ? ot ? ? ? ? ? ? ? ? ? ? en ?].
  destruct (String.eqb scorer "left"), ot, en; simpl;
    rewrite ?Z.add_0_r; reflexivity.
Qed.

(** The four ways the timer block of [update] can go. *)
Lemma update_clock_cases d r m :
  let m' := update options level d r m in
  let t := timeLeftMs m - d in
  scoreLeft m' = scoreLeft m /\ scoreRight m' = scoreRight m
  /\ ((0 < t /\ timeLeftMs m' = t /\ overtime m' = overtime m
       /\ ended m' = ended m)
      \/ (t <= 0 /\ overtime m = false /\ scoreLeft m = scoreRight m
          /\ timeLeftMs m' = 30000 /\ overtime m' = true /\ ended m' = ended m)
      \/ (t <= 0 /\ overtime m = false /\ scoreLeft m <> scoreRight m
          /\ timeLeftMs m' = t /\ overtime m' = false /\ ended m' = true)
      \/ (t <= 0 /\ overtime m = true
          /\ timeLeftMs m' = t /\ overtime m' = true /\ ended m' = true)).
Proof.
  intros m' t. pose proof (clock_update options level d r m) as Hc. fold m' in Hc.
  unfold clock in Hc. injection Hc as -> -> -> -> -> _.
  unfold afterTimer, countDown. simpl. fold t.
  destruct (overtime m) eqn:Ho; simpl; destruct (JS.leb t 0) eqn:Ht; simpl.
  - apply JSFacts.leb_le in Ht. rewrite ?Ho. split; [done|]. split; [done|].
    right. right. right. done.
  - apply JSFacts.leb_gt in Ht. rewrite ?Ho. split; [done|]. split; [done|].
    left. done.
  - apply JSFacts.leb_le in Ht.
    destruct (Z.eqb_spec (scoreLeft m) (scoreRight m)) as [Hs|Hs]; simpl.
    + split; [done|]. split; [done|]. right. left. done.
    + rewrite ?Ho. split; [done|]. split; [done|]. right. right. left. done.
  - apply JSFacts.leb_gt in Ht. rewrite ?Ho. split; [done|]. split; [done|].
    left. done.
Qed.

Lemma goldenGoal_handle e m : goldenGoal m -> goldenGoal (handle options level e m).
Proof.
  intros (Hl & Hr & Ho & Hreg & Hot & Ht).
  destruct (ended m) eqn:He.
  { unfold handle. rewrite He. unfold goldenGoal. rewrite He in *.
    repeat split; auto; discriminate. }
  destruct e as [d r | [scorer | state] | code | code | key down].
  - unfold handle. rewrite He. unfold goldenGoal.
    destruct (update_clock_cases d r m) as (-> & -> & [H|[H|[H|H]]]);
      [destruct H as (H0 & -> & -> & ->) | destruct H as (H0 & H1 & H2 & -> & -> & ->)
      |destruct H as (H0 & H1 & H2 & -> & -> & ->) | destruct H as (H0 & H1 & -> & -> & ->)];
      rewrite ?He; repeat split; auto; try discriminate; try congruence; try lra.
  - pose proof (clock_goal scorer m) as Hc. unfold handle. rewrite He.
    remember (onmessage options level (MsgGoal scorer) m) as m' eqn:Hm'. clear Hm'.
    unfold clock in Hc. injection Hc as Hc1 Hc2 Hc3 Hc4 Hc5 _.
    unfold goldenGoal. rewrite Hc1, Hc2, Hc3, Hc4, Hc5, He. simpl.
    destruct (overtime m) eqn:Hov.
    + specialize (Ho eq_refl eq_refl).
      destruct (String.eqb scorer "left"); repeat split; intros; try discriminate; try lia.
    + destruct (String.eqb scorer "left"); repeat split; intros; try discriminate;
        try lia; auto.
  - pose proof (clock_handle_other (Message (MsgState state)) m He I) as Hc.
    remember (handle options level (Message (MsgState state)) m) as m' eqn:Hm'. clear Hm'.
    unfold clock in Hc. injection Hc as Hc1 Hc2 Hc3 Hc4 Hc5 _.
    unfold goldenGoal. rewrite Hc1, Hc2, Hc3, Hc4, Hc5, He.
    repeat split; auto; discriminate.
  - pose proof (clock_handle_other (KeyDown code) m He I) as Hc.
    remember (handle options level (KeyDown code) m) as m' eqn:Hm'. clear Hm'.
    unfold clock in Hc. injection Hc as Hc1 Hc2 Hc3 Hc4 Hc5 _.
    unfold goldenGoal. rewrite Hc1, Hc2, Hc3, Hc4, Hc5, He.
    repeat split; auto; discriminate.
  - pose proof (clock_handle_other (KeyUp code) m He I) as Hc.
    remember (handle options level (KeyUp code) m) as m' eqn:Hm'. clear Hm'.
    unfold clock in Hc. injection Hc as Hc1 Hc2 Hc3 Hc4 Hc5 _.
    unfold goldenGoal. rewrite Hc1, Hc2, Hc3, Hc4, Hc5, He.
    repeat split; auto; discriminate.
  - pose proof (clock_handle_other (Pointer key down) m He I) as Hc.
    remember (handle options level (Pointer key down) m) as m' eqn:Hm'. clear Hm'.
    unfold clock in Hc. injection Hc as Hc1 Hc2 Hc3 Hc4 Hc5 _.
    unfold goldenGoal. rewrite Hc1, Hc2, Hc3, Hc4, Hc5, He.
    repeat split; auto; discriminate.
Qed.

Lemma goldenGoal_run events m :
  goldenGoal m -> goldenGoal (run options level events m).
Proof.
  revert m. induction events as [|e events IH]; intros m Hm; [done|].
  apply (IH (handle options level e m)). by apply goldenGoal_handle.
Qed.

Lemma goldenGoal_startMatch : goldenGoal startMatch.
Proof. unfold goldenGoal. simpl. repeat split; try done; try lia. Qed.

(** X11.  In every run of a match: while Overtime is on the score is tied;
    a match that ended in regulation did not end tied; a match that ended
    in Overtime ended tied (time ran out) or one goal apart (the golden
    goal); and as long as the match runs the remaining time is positive. *)
Theorem golden_goal_rule events :
  let m := run options level events startMatch in
  (ended m = false -> overtime m = true -> scoreLeft m = scoreRight m)
  /\ (ended m = true -> overtime m = false -> scoreLeft m <> scoreRight m)
  /\ (ended m = true -> overtime m = true ->
      scoreLeft m = scoreRight m
      \/ scoreLeft m = (scoreRight m + 1)%Z \/ scoreRight m = (scoreLeft m + 1)%Z)
  /\ (ended m = false -> 0 < timeLeftMs m).
Proof.
  intros m.
  destruct (goldenGoal_run events startMatch goldenGoal_startMatch)
    as (_ & _ & H1 & H2 & H3 & H4).
  fold m in H1, H2, H3, H4. auto.
Qed.

Lemma leftGoals_nonneg events : (0 <= leftGoals events)%Z.
Proof.
  induction events as [|[d r|[scorer|state]|code|code|key down] events IH]; simpl;
    try lia. destruct (String.eqb scorer "left"); lia.
Qed.

Lemma rightGoals_nonneg events : (0 <= rightGoals events)%Z.
Proof.
  induction events as [|[d r|[scorer|state]|code|code|key down] events IH]; simpl;
    try lia. destruct (String.eqb scorer "left"); lia.
Qed.

(** The scores after one event. *)
Lemma score_handle e m :
  ended m = false ->
  scoreLeft (handle options level e m) = (scoreLeft m + leftGoals [e])%Z
  /\ scoreRight (handle options level e m) = (scoreRight m + rightGoals [e])%Z.
Proof.
  intros He. destruct e as [d r | [scorer | state] | code | code | key down].
  - unfold handle. rewrite He. destruct (update_clock_cases d r m) as (-> & -> & _).
    simpl. lia.
  - pose proof (clock_goal scorer m) as Hc. unfold handle. rewrite He.
    remember (onmessage options level (MsgGoal scorer) m) as m' eqn:Hm'. clear Hm'.
    unfold clock in Hc. injection Hc as -> -> _ _ _ _. simpl. lia.
  - pose proof (clock_handle_other (Message (MsgState state)) m He I) as Hc.
    remember (handle options level (Message (MsgState state)) m) as m' eqn:Hm'. clear Hm'.
    unfold clock in Hc. injection Hc as -> -> _ _ _ _. simpl. lia.
  - pose proof (clock_handle_other (KeyDown code) m He I) as Hc.
    remember (handle options level (KeyDown code) m) as m' eqn:Hm'. clear Hm'.
    unfold clock in Hc. injection Hc as -> -> _ _ _ _. simpl. lia.
  - pose proof (clock_handle_other (KeyUp code) m He I) as Hc.
    remember (handle options level (KeyUp code) m) as m' eqn:Hm'. clear Hm'.
    unfold clock in Hc. injection Hc as -> -> _ _ _ _. simpl. lia.
  - pose proof (clock_handle_other (Pointer key down) m He I) as Hc.
    remember (handle options level (Pointer key down) m) as m' eqn:Hm'. clear Hm'.
    unfold clock in Hc. injection Hc as -> -> _ _ _ _. simpl. lia.
Qed.

Lemma score_run events : forall m,
  let m' := run options level events m in
  (scoreLeft m <= scoreLeft m' <= scoreLeft m + leftGoals events)%Z
  /\ (scoreRight m <= scoreRight m' <= scoreRight m + rightGoals events)%Z
  /\ (ended m' = false ->
      scoreLeft m' = (scoreLeft m + leftGoals events)%Z
      /\ scoreRight m' = (scoreRight m + rightGoals events)%Z).
Proof.
  induction events as [|e events IH]; intros m.
  - simpl. split; [lia|]. split; [lia|]. intros _. lia.
  - change (run options level (e :: events) m)
      with (run options level events (handle options level e m)).
    destruct (ended m) eqn:He.
    + assert (handle options level e m = m) as -> by (unfold handle; by rewrite He).
      rewrite run_ended by done.
      pose proof (leftGoals_nonneg (e :: events)).
      pose proof (rightGoals_nonneg (e :: events)).
      split; [lia|]. split; [lia|]. congruence.
    + destruct (score_handle e m He) as [Hl Hr].
      destruct (IH (handle options level e m)) as (I1 & I2 & I3).
      pose proof (leftGoals_nonneg [e]). pose proof (rightGoals_nonneg [e]).
      assert (leftGoals (e :: events) = leftGoals [e] + leftGoals events)%Z as ->.
      { destruct e as [|[|]| | |]; simpl; lia. }
      assert (rightGoals (e :: events) = rightGoals [e] + rightGoals events)%Z as ->.
      { destruct e as [|[|]| | |]; simpl; lia. }
      split; [lia|]. split; [lia|]. intros Hend. specialize (I3 Hend). lia.
Qed.

(** X12.  In every run of a match each score only grows, and while the match
    has not ended the left score is the number of goal messages with
    scorer ['left'] and the right score the number of all other goal
    messages: every goal counts once, for exactly one side, and a scorer
    that is not ['left'] counts for the right. *)
Theorem scores_count_goals events :
  let m := run options level events startMatch in
  (0 <= scoreLeft m <= leftGoals events)%Z
  /\ (0 <= scoreRight m <= rightGoals events)%Z
  /\ (ended m = false ->
      scoreLeft m = leftGoals events /\ scoreRight m = rightGoals events).
Proof.
  intros m. destruct (score_run events startMatch) as (H1 & H2 & H3).
  fold m in H1, H2, H3. simpl in *.
  split; [lia|]. split; [lia|]. intros He. specialize (H3 He). lia.
Qed.

Lemma phase_Regulation m :
  phase m = Regulation <-> ended m = false /\ overtime m = false.
Proof. unfold phase. destruct (ended m), (overtime m); split; intros; intuition congruence. Qed.

(** The clock after one event that is neither a frame nor a goal. *)
Lemma clock_other_fields e m :
  ended m = false ->
  match e with Frame _ _ | Message (MsgGoal _) => False | _ => True end ->
  timeLeftMs (handle options level e m) = timeLeftMs m
  /\ overtime (handle options level e m) = overtime m
  /\ ended (handle options level e m) = ended m.
Proof.
  intros He Hk. pose proof (clock_handle_other e m He Hk) as Hc.
  remember (handle options level e m) as m' eqn:Hm'. clear Hm'.
  unfold clock in Hc. by injection Hc as _ _ -> -> -> _.
Qed.

Lemma clock_goal_fields scorer m :
  ended m = false ->
  timeLeftMs (handle options level (Message (MsgGoal scorer)) m) = timeLeftMs m
  /\ overtime (handle options level (Message (MsgGoal scorer)) m) = overtime m
  /\ ended (handle options level (Message (MsgGoal scorer)) m) = overtime m.
Proof.
  intros He. pose proof (clock_goal scorer m) as Hc. unfold handle. rewrite He.
  remember (onmessage options level (MsgGoal scorer) m) as m' eqn:Hm'. clear Hm'.
  unfold clock in Hc. injection Hc as _ _ -> -> -> _. by rewrite He.
Qed.

(** One event seen from the regulation phase. *)
Lemma regulation_handle e m :
  phase (handle options level e m) = Regulation ->
  phase m = Regulation
  /\ timeLeftMs (handle options level e m) == timeLeftMs m - elapsedMs [e].
Proof.
  rewrite !phase_Regulation. intros [Hp1 Hp2].
  destruct (ended m) eqn:He.
  { unfold handle in Hp1. rewrite He in Hp1. congruence. }
  destruct e as [d r | [scorer | state] | code | code | key down].
  - unfold handle in *. rewrite He in *.
    destruct (update_clock_cases d r m) as (_ & _ & [H|[H|[H|H]]]).
    + destruct H as (H0 & H1 & H2 & H3). rewrite H1. rewrite H2 in Hp2.
      split; [done|]. simpl. lra.
    + destruct H as (H0 & H1 & H2 & H3 & H4 & H5). congruence.
    + destruct H as (H0 & H1 & H2 & H3 & H4 & H5). congruence.
    + destruct H as (H0 & H1 & H3 & H4 & H5). congruence.
  - destruct (clock_goal_fields scorer m He) as (H1 & H2 & H3).
    rewrite H1. rewrite H2 in Hp2. split; [done|]. simpl. lra.
  - destruct (clock_other_fields (Message (MsgState state)) m He I) as (H1 & H2 & H3).
    rewrite H1. rewrite H2 in Hp2. split; [done|]. simpl. lra.
  - destruct (clock_other_fields (KeyDown code) m He I) as (H1 & H2 & H3).
    rewrite H1. rewrite H2 in Hp2. split; [done|]. simpl. lra.
  - destruct (clock_other_fields (KeyUp code) m He I) as (H1 & H2 & H3).
    rewrite H1. rewrite H2 in Hp2. split; [done|]. simpl. lra.
  - destruct (clock_other_fields (Pointer key down) m He I) as (H1 & H2 & H3).
    rewrite H1. rewrite H2 in Hp2. split; [done|]. simpl. lra.
Qed.

Lemma regulation_run events : forall m,
  phase (run options level events m) = Regulation ->
  phase m = Regulation
  /\ timeLeftMs (run options level events m) == timeLeftMs m - elapsedMs events.
Proof.
  induction events as [|e events IH]; intros m Hp.
  - simpl in *. split; [done|]. lra.
  - change (run options level (e :: events) m)
      with (run options level events (handle options level e m)) in *.
    destruct (IH _ Hp) as [Hp1 Ht1].
    destruct (regulation_handle e m Hp1) as [Hp0 Ht0].
    split; [done|]. rewrite Ht1, Ht0. rewrite (elapsedMs_cons e events). lra.
Qed.

(** While time lasts, one event leaves the match in regulation. *)
Lemma regulation_stays e m :
  phase m = Regulation ->
  match e with Frame d _ => d < timeLeftMs m | _ => True end ->
  phase (handle options level e m) = Regulation.
Proof.
  rewrite !phase_Regulation. intros [He Ho] Hd.
  destruct e as [d r | [scorer | state] | code | code | key down].
  - unfold handle. rewrite He.
    destruct (update_clock_cases d r m) as (_ & _ & [H|[H|[H|H]]]).
    + destruct H as (H0 & H1 & H2 & H3). by rewrite H2, H3.
    + destruct H as (H0 & _). lra.
    + destruct H as (H0 & _). lra.
    + destruct H as (H0 & _). lra.
  - destruct (clock_goal_fields scorer m He) as (H1 & H2 & H3). by rewrite H2, H3.
  - destruct (clock_other_fields (Message (MsgState state)) m He I) as (H1 & H2 & H3).
    by rewrite H2, H3.
  - destruct (clock_other_fields (KeyDown code) m He I) as (H1 & H2 & H3).
    by rewrite H2, H3.
  - destruct (clock_other_fields (KeyUp code) m He I) as (H1 & H2 & H3).
    by rewrite H2, H3.
  - destruct (clock_other_fields (Pointer key down) m He I) as (H1 & H2 & H3).
    by rewrite H2, H3.
Qed.

Lemma regulation_lasts events : forall m,
  phase m = Regulation ->
  Forall (fun e => match e with Frame d _ => 0 <= d | _ => True end) events ->
  elapsedMs events < timeLeftMs m ->
  phase (run options level events m) = Regulation.
Proof.
  induction events as [|e events IH]; intros m Hp Hpos Hlt; [done|].
  inversion Hpos as [|? ? He Hpos']; subst.
  pose proof (elapsedMs_nonneg events Hpos') as Hnn.
  pose proof (elapsedMs_cons e events) as Hcons.
  assert (phase (handle options level e m) = Regulation) as Hp1.
  { apply regulation_stays; [done|]. destruct e; try done. simpl in *. lra. }
  simpl. apply IH; [done | done |].
  destruct (regulation_handle e m Hp1) as [_ Ht]. rewrite Ht. lra.
Qed.


Lemma recView_aiControl d r m :
  recView (aiControl options level d r m) = recView m.
Proof.
  unfold aiControl.
  repeat match goal with
         | |- context [match ?x with _ => _ end] => destruct x eqn:?
         end; unfold recView; simpl; congruence.
Qed.

Lemma recView_sendPlayerInput m : recView (sendPlayerInput options m) = recView m.
Proof. unfold sendPlayerInput. by destruct (negb _). Qed.

(** The loop of the recorder: it stops below 100, having pushed one copy
    of the frame for every 100 it took off. *)
Lemma record_loop turns frame : forall m,
  recordAccumulator m < 100 * (Replay.ofNat turns + 1) ->
  exists k,
    (k <= turns)%nat
    /\ recordAccumulator (record turns frame m) + 100 * Replay.ofNat k
       == recordAccumulator m
    /\ replayFrames (record turns frame m) = replayFrames m ++ replicate k frame
    /\ recordAccumulator (record turns frame m) < 100
    /\ (0 <= recordAccumulator m -> 0 <= recordAccumulator (record turns frame m)).
Proof.
  induction turns as [|turns IH]; intros m Hlt.
  - exists 0%nat. simpl. change (Replay.ofNat 0) with 0 in *.
    split; [lia|]. split; [lra|]. split; [by rewrite app_nil_r|].
    split; [lra | done].
  - simpl. destruct (JS.leb 100 (recordAccumulator m)) eqn:Hge.
    + apply JSFacts.leb_le in Hge. rewrite ReplayFacts.ofNat_S in Hlt.
      destruct (IH (set_recorder (recordAccumulator m - 100)
                      (replayFrames m ++ [frame]) m)) as (k & Hk & Ha & Hf & Hb & Hn).
      { simpl. lra. }
      simpl in *. exists (S k).
      split; [lia|]. split; [rewrite ReplayFacts.ofNat_S; lra|].
      split; [by rewrite Hf, <- app_assoc|]. split; [done|]. intros. apply Hn. lra.
    + apply JSFacts.leb_gt in Hge. exists 0%nat. change (Replay.ofNat 0) with 0.
      split; [lia|]. split; [lra|]. split; [by rewrite app_nil_r|]. split; [done|done].
Qed.

(** The number of turns [update] allows the loop is enough. *)
Lemma record_turns acc :
  acc < 100 * (Replay.ofNat (Z.to_nat (Qfloor (acc / 100))) + 1).
Proof.
  pose proof (Qlt_floor (acc / 100)) as Hf.
  rewrite inject_Z_plus in Hf. change (inject_Z 1) with 1 in Hf.
  unfold Qdiv in Hf. change (/ 100) with (1 # 100) in Hf.
  unfold Replay.ofNat.
  destruct (Z.le_gt_cases 0 (Qfloor (acc * (1 # 100)))) as [Hz | Hz].
  - unfold Qdiv. change (/ 100) with (1 # 100). rewrite Z2Nat.id by done. lra.
  - unfold Qdiv. change (/ 100) with (1 # 100).
    rewrite Z2Nat.nonpos by lia. change (inject_Z (Z.of_nat 0)) with 0.
    assert (inject_Z (Qfloor (acc * (1 # 100))) <= inject_Z (-1)) as Hq
      by (rewrite <- Zle_Qle; lia).
    change (inject_Z (-1)) with (-1) in Hq. lra.
Qed.

(** The two ways [update] can go: it returns at an [endMatch()], or it runs
    to its end. *)
Lemma countDown_shape d m :
  exists t ot,
    countDown options level d m = (set_clock t ot m, false) /\ 0 < t
    \/ countDown options level d m = (endMatch options level (set_clock t ot m), true).
Proof.
  unfold countDown. simpl.
  destruct (overtime m) eqn:Ho; simpl; destruct (JS.leb (timeLeftMs m - d) 0) eqn:Ht; simpl.
  - exists (timeLeftMs m - d), true. by right.
  - exists (timeLeftMs m - d), true. left. by apply JSFacts.leb_gt in Ht.
  - destruct (scoreLeft m =? scoreRight m)%Z.
    + exists (30 * 1000), true. left. split; [by destruct m | done].
    + exists (timeLeftMs m - d), false. by right.
  - exists (timeLeftMs m - d), false. left. by apply JSFacts.leb_gt in Ht.
Qed.

Lemma update_shape d r m :
  exists t ot,
    (update options level d r m
     = finishFrame options d
         (aiControl options level d r
            (sendPlayerInput options (showTimer (set_clock t ot m))))
     /\ 0 < t)
    \/ update options level d r m = endMatch options level (set_clock t ot m).
Proof.
  unfold update. destruct (countDown_shape d m) as (t & ot & [[-> Ht] | ->]);
    exists t, ot; [by left | by right].
Qed.

(** The recorder block on a complete snapshot of a live match. *)
Lemma finishFrame_record d m s :
  replay options = false ->
  latestState m = Some s -> completeSnapshot s ->
  0 <= d -> 0 <= recordAccumulator m < 100 ->
  let m' := finishFrame options d m in
  exists k frame,
    Replay.timeLeft frame = timeLeftMs m
    /\ replayFrames m' = replayFrames m ++ replicate k frame
    /\ recordAccumulator m' + 100 * Replay.ofNat k == recordAccumulator m + d
    /\ 0 <= recordAccumulator m' < 100
    /\ latestState m' = Some s /\ ended m' = ended m.
Proof.
  intros Hr Hs ([b Hb] & [b1 Hb1] & [b2 Hb2]) Hd Ha. unfold finishFrame, isReplay.
  rewrite Hs, Hb, Hb1, Hb2, Hr. cbn [negb].
  match goal with |- context [record ?n ?f ?m0] =>
    set (turns := n); set (frame := f); set (m0' := m0) end.
  assert (recordAccumulator m0' = recordAccumulator m + d) as Hacc by done.
  destruct (record_loop turns frame m0') as (k & _ & Hk & Hf & Hlt & Hge).
  { subst turns. apply record_turns. }
  destruct (record_shape turns frame m0') as (acc & fs & Heq).
  exists k, frame. rewrite Heq in Hk, Hf, Hlt, Hge |- *.
  split; [done|]. split; [done|]. split; [by rewrite Hk, Hacc|].
  destruct Ha as [Ha0 Ha1].
  split; [split; [apply Hge; rewrite Hacc; lra | done]|]. done.
Qed.

Lemma recording_same m m' :
  recView m' = recView m -> recording m -> recording m' /\ recordedMs m' = recordedMs m.
Proof.
  unfold recView, recording, recordedMs. intros [= Ha Hf Hs] Hrec.
  rewrite Ha, Hf, Hs. split; [exact Hrec | reflexivity].
Qed.

Lemma ofNat_add a b : Replay.ofNat (a + b) == Replay.ofNat a + Replay.ofNat b.
Proof. unfold Replay.ofNat. rewrite Nat2Z.inj_add, inject_Z_plus. reflexivity. Qed.

Lemma recView_update_blocks d r t ot m :
  recView (aiControl options level d r
             (sendPlayerInput options (showTimer (set_clock t ot m))))
  = recView m
  /\ timeLeftMs (aiControl options level d r
                   (sendPlayerInput options (showTimer (set_clock t ot m)))) = t
  /\ ended (aiControl options level d r
              (sendPlayerInput options (showTimer (set_clock t ot m)))) = ended m.
Proof.
  split; [by rewrite recView_aiControl, recView_sendPlayerInput|].
  pose proof (clock_aiControl options level d r
                (sendPlayerInput options (showTimer (set_clock t ot m)))) as H1.
  pose proof (clock_sendPlayerInput options (showTimer (set_clock t ot m))) as H2.
  rewrite H2 in H1. unfold clock in H1. injection H1 as _ _ -> _ -> _. done.
Qed.

(** One event of a live match, as the recorder sees it. *)
Lemma recording_handle e m :
  replay options = false ->
  recording m ->
  match e with
  | Message (MsgState s) => completeSnapshot s
  | Frame d _ => 0 <= d
  | _ => True
  end ->
  let m' := handle options level e m in
  recording m'
  /\ recordedMs m' <= recordedMs m + elapsedMs [e]
  /\ (ended m' = false -> recordedMs m' == recordedMs m + elapsedMs [e]).
Proof.
  intros Hr Hrec He. unfold handle. destruct (ended m) eqn:Hend.
  { simpl. split; [done|]. split; [|intros; congruence].
    destruct e; simpl; try lra. }
  assert (forall m', recView m' = recView m ->
            match e with Frame _ _ => False | _ => True end ->
            recording m' /\ recordedMs m' <= recordedMs m + elapsedMs [e]
            /\ (ended m' = false -> recordedMs m' == recordedMs m + elapsedMs [e]))
    as Hsame.
  { intros m' Hv Hk. destruct (recording_same m m' Hv Hrec) as [H1 ->].
    split; [done|]. destruct e; try done; simpl; split; intros; lra. }
  destruct e as [d r | [scorer | state] | code | code | key down]; cbv beta iota zeta.
  - destruct (update_shape d r m) as (t & ot & [[-> Ht] | ->]).
    + destruct (recView_update_blocks d r t ot m) as (Hv & Htl & Hen).
      destruct (recording_same m _ Hv Hrec) as [((s & Hs & Hc) & Ha & Hf) Heq].
      destruct (finishFrame_record d _ s Hr Hs Hc He Ha)
        as (k & frame & Hft & Hfs & Hacc & Ha' & Hs' & He').
      rewrite Htl in Hft.
      split.
      { split; [by exists s|]. split; [done|]. rewrite Hfs.
        apply Forall_app. split; [done|]. apply Forall_replicate. by rewrite Hft. }
      assert (recordedMs (finishFrame options d
                (aiControl options level d r
                   (sendPlayerInput options (showTimer (set_clock t ot m)))))
              == recordedMs m + (d + 0)) as Hcount.
      { rewrite <- Heq. unfold recordedMs at 1. rewrite Hfs, length_app, length_replicate.
        rewrite ofNat_add. unfold recordedMs. lra. }
      split; [by rewrite Hcount; apply Qle_refl | done].
    + split; [exact Hrec|]. split; [|done].
      unfold recordedMs. simpl. lra.
  - apply (Hsame (onmessage options level (MsgGoal scorer) m)); [|done]. unfold onmessage.
    by destruct (String.eqb scorer "left"), (overtime _).
  - destruct Hrec as (_ & Ha & Hf).
    split; [split; [by exists state | done]|].
    unfold recordedMs. simpl. split; intros; lra.
  - apply (Hsame (onKeyDown options code m)); [|done]. unfold onKeyDown.
    by destruct (String.eqb code "KeyK"); [destruct (_ && _)|].
  - by apply (Hsame (onKeyUp code m)).
  - by apply (Hsame (set_playerInput (press key down (playerInput m)) m)).
Qed.

Lemma recording_run events : forall m,
  replay options = false ->
  recording m -> completeSnapshots events -> forwardFrames events ->
  let m' := run options level events m in
  recording m'
  /\ recordedMs m' <= recordedMs m + elapsedMs events
  /\ (ended m' = false -> recordedMs m' == recordedMs m + elapsedMs events).
Proof.
  induction events as [|e events IH]; intros m Hr Hrec Hc Hf.
  - simpl. split; [done|]. split; intros; lra.
  - apply Forall_cons in Hc as [Hc1 Hc]. apply Forall_cons in Hf as [Hf1 Hf].
    change (run options level (e :: events) m)
      with (run options level events (handle options level e m)).
    assert (match e with
            | Message (MsgState s) => completeSnapshot s
            | Frame d _ => 0 <= d
            | _ => True
            end) as He.
    { by destruct e as [d r | [scorer | state] | code | code | key down]. }
    destruct (recording_handle e m Hr Hrec He) as (Hrec1 & Hle1 & Heq1).
    destruct (IH _ Hr Hrec1 Hc Hf) as (Hrec2 & Hle2 & Heq2).
    pose proof (elapsedMs_cons e events) as Hcons.
    cbv zeta in Hle1, Heq1, Hle2, Heq2 |- *.
    split; [done|]. split.
    + lra.
    + intros Hend. rewrite (Heq2 Hend).
      destruct (ended (handle options level e m)) eqn:Hmid.
      * rewrite (run_ended options level events _ Hmid) in Hend. congruence.
      * rewrite (Heq1 eq_refl). lra.
Qed.


(** *** What a frame posts *)

Lemma superCount_app id l1 l2 :
  superCount id (l1 ++ l2) = (superCount id l1 + superCount id l2)%nat.
Proof.
  induction l1 as [|[id' i| |id'] l1 IH]; simpl; [done|done|done|]. rewrite IH. lia.
Qed.

(** The AI block: it posts nothing, or the command, or a ['super'] message
    and the command. *)
Lemma aiControl_wire d r m :
  let m' := aiControl options level d r m in
  superCooldown1 m' = superCooldown1 m
  /\ ((sent m' = sent m /\ superCooldown2 m' = superCooldown2 m
       /\ (aiOn options = false \/ latestState m = None))
      \/ (aiOn options = true /\ is_Some (latestState m)
          /\ ((sent m' = sent m ++ [MsgInput "2" (aiLastInput m')]
               /\ superCooldown2 m' = JS.Math_max 0 (superCooldown2 m - d))
              \/ (sent m' = sent m ++ [MsgSuper "2"; MsgInput "2" (aiLastInput m')]
                  /\ superCooldown2 m' = 7000
                  /\ Input.super (aiLastInput m') = true
                  /\ JS.Math_max 0 (superCooldown2 m - d) <= 0)))).
Proof.
  unfold aiControl. destruct (latestState m) as [state|] eqn:Hs.
  2:{ simpl. split; [done|]. left. split; [done|]. split; [done|]. by right. }
  destruct (aiOn options) eqn:Hon.
  2:{ simpl. split; [done|]. left. split; [done|]. split; [done|]. by left. }
  destruct (JS.leb (aiDecisionCountdown m - d) 0).
  2:{ simpl. split; [done|]. right. split; [done|]. split; [done|]. by left. }
  destruct (state !! "ball") as [ball|]; [destruct (state !! "2") as [aiBody|]|].
  2,3: simpl; split; [done|]; right; split; [done|]; split; [done|]; by left.
  unfold decide.
  destruct (if JS.ltb 0.05 (JS.Math_abs (targetX options level ball r - BodyState.x aiBody))
            then _ else _) as [l rr].
  destruct (JS.leb (JS.Math_max 0 (superCooldown2 m - d)) 0) eqn:Hc; simpl.
  - destruct (JS.ltb (BodyState.y aiBody + 1.0) (BodyState.y ball)
              && JS.ltb (JS.Math_abs (BodyState.x ball - BodyState.x aiBody)) 0.6); simpl.
    + split; [done|]. right. split; [done|]. split; [done|]. right.
      rewrite <- app_assoc. simpl. apply JSFacts.leb_le in Hc. done.
    + split; [done|]. right. split; [done|]. split; [done|]. by left.
  - split; [done|]. right. split; [done|]. split; [done|]. by left.
Qed.

(** The last blocks: they post nothing, and take the frame time off the
    cooldown of player 1 unless the callback stops at an incomplete
    snapshot. *)
Lemma finishFrame_wire d m :
  let m' := finishFrame options d m in
  sent m' = sent m /\ superCooldown2 m' = superCooldown2 m
  /\ aiLastInput m' = aiLastInput m /\ latestState m' = latestState m
  /\ (superCooldown1 m' = superCooldown1 m
      \/ (replay options = false
          /\ superCooldown1 m' = JS.Math_max 0 (superCooldown1 m - d))).
Proof.
  cbv zeta. pose proof (aiView_finishFrame options d m) as Hv. unfold aiView in Hv.
  injection Hv as _ -> -> -> -> _.
  split; [done|]. split; [done|]. split; [done|]. split; [done|].
  unfold finishFrame, isReplay.
  destruct (latestState m) as [state|].
  - destruct (state !! "ball"); [destruct (state !! "1"); [destruct (state !! "2")|]|];
      try by left.
    destruct (replay options); [by left|]. right. split; [done|]. cbn [negb].
    match goal with |- context [record ?n ?f ?m0] =>
      destruct (record_shape n f m0) as (acc & fs & ->) end.
    done.
  - destruct (replay options); [by left|]. by right.
Qed.

(** What one call of [update] posts and what it does to the cooldowns. *)
Lemma update_wire d r m :
  let m' := update options level d r m in
  exists p a : list PageMsg,
    sent m' = sent m ++ p ++ a
    /\ (p = [] \/ (replay options = false /\ p = [MsgInput "1" (playerInput m)]))
    /\ ((a = [] /\ superCooldown2 m' = superCooldown2 m)
        \/ (aiOn options = true /\ is_Some (latestState m)
            /\ ((a = [MsgInput "2" (aiLastInput m')]
                 /\ superCooldown2 m' = JS.Math_max 0 (superCooldown2 m - d))
                \/ (a = [MsgSuper "2"; MsgInput "2" (aiLastInput m')]
                    /\ superCooldown2 m' = 7000
                    /\ Input.super (aiLastInput m') = true
                    /\ JS.Math_max 0 (superCooldown2 m - d) <= 0))))
    /\ (superCooldown1 m' = superCooldown1 m
        \/ (replay options = false
            /\ superCooldown1 m' = JS.Math_max 0 (superCooldown1 m - d)))
    /\ latestState m' = latestState m.
Proof.
  cbv zeta. destruct (update_shape d r m) as (t & ot & [[-> Ht] | ->]).
  2:{ exists [], []. rewrite app_nil_r. simpl. split; [done|]. split; [by left|].
      split; [by left|]. split; [by left | done]. }
  set (m0 := showTimer (set_clock t ot m)).
  assert (sent m0 = sent m /\ superCooldown1 m0 = superCooldown1 m
          /\ superCooldown2 m0 = superCooldown2 m /\ latestState m0 = latestState m
          /\ playerInput m0 = playerInput m) as (Hs0 & Hc0 & Hd0 & Hl0 & Hp0) by done.
  set (m1 := sendPlayerInput options m0).
  assert (superCooldown1 m1 = superCooldown1 m0
          /\ superCooldown2 m1 = superCooldown2 m0 /\ latestState m1 = latestState m0
          /\ ((replay options = true /\ sent m1 = sent m0)
              \/ (replay options = false
                  /\ sent m1 = sent m0 ++ [MsgInput "1" (playerInput m0)])))
    as (Hc1 & Hd1 & Hl1 & Hs1).
  { subst m1. unfold sendPlayerInput, isReplay. destruct (replay options); simpl.
    - split; [done|]. split; [done|]. split; [done|]. by left.
    - split; [done|]. split; [done|]. split; [done|]. by right. }
  destruct (aiControl_wire d r m1) as (Hc2 & Ha2).
  set (m2 := aiControl options level d r m1) in *.
  destruct (finishFrame_wire d m2) as (Hs3 & Hd3 & Hi3 & Hl3 & Hc3).
  set (m3 := finishFrame options d m2) in *.
  assert (latestState m2 = latestState m1) as Hl2
    by apply (aiControl_latest options level).
  exists (if replay options then [] else [MsgInput "1" (playerInput m)]),
         (drop (length (sent m1)) (sent m2)).
  assert (sent m1 = sent m ++ (if replay options then [] else [MsgInput "1" (playerInput m)]))
    as Hsent1.
  { destruct Hs1 as [[-> ->] | [-> ->]]; rewrite Hs0, ?Hp0, ?app_nil_r; reflexivity. }
  split.
  { rewrite Hs3, app_assoc, <- Hsent1.
    destruct Ha2 as [(-> & _) | (_ & _ & [(-> & _) | (-> & _)])];
      by rewrite ?drop_app_length, ?drop_all, ?app_nil_r. }
  split.
  { destruct (replay options); [by left | by right]. }
  split.
  { rewrite Hd3, <- Hd0, <- Hd1, <- Hl0, <- Hl1, Hi3.
    destruct Ha2 as [(-> & -> & _) | (Hon & Hsome & [(-> & ->) | (-> & -> & Hx & Hy)])].
    - left. by rewrite drop_all.
    - right. split; [done|]. split; [done|]. left. by rewrite drop_app_length.
    - right. split; [done|]. split; [done|]. right. by rewrite drop_app_length. }
  split.
  { rewrite <- Hc0, <- Hc1, <- Hc2. exact Hc3. }
  by rewrite Hl3, Hl2, Hl1, Hl0.
Qed.

(** *** The cooldowns of the super-jump *)

Lemma Math_max_lower a b : b <= JS.Math_max a b /\ a <= JS.Math_max a b.
Proof. destruct (JSFacts.Math_max_spec a b) as [[H ->] | [H ->]]; lra. Qed.

(** One event while player 1 cools down. *)
Lemma cooling1_handle e m :
  match e with Frame d _ => 0 <= d | _ => True end ->
  elapsedMs [e] < superCooldown1 m ->
  let m' := handle options level e m in
  superCount "1" (sent m') = superCount "1" (sent m)
  /\ superCooldown1 m - elapsedMs [e] <= superCooldown1 m'.
Proof.
  intros He Hlt. unfold handle. destruct (ended m).
  { cbv zeta. split; [done|]. destruct e; simpl in *; lra. }
  destruct e as [d r | [scorer | state] | code | code | key down]; cbv beta iota zeta.
  - destruct (update_wire d r m) as (p & a & -> & Hp & Ha & Hc & _).
    split.
    + rewrite !superCount_app.
      assert (superCount "1" p = 0%nat) as -> by (by destruct Hp as [-> | [_ ->]]).
      assert (superCount "1" a = 0%nat) as ->.
      { by destruct Ha as [[-> _] | (_ & _ & [[-> _] | [-> _]])]. }
      lia.
    + simpl. destruct Hc as [-> | [_ ->]]; [lra|].
      pose proof (Math_max_lower 0 (superCooldown1 m - d)). lra.
  - unfold onmessage.
    destruct (String.eqb scorer "left"); simpl; destruct (overtime m); simpl;
      (split; [done | lra]).
  - simpl. split; [done | lra].
  - simpl in *. unfold onKeyDown. destruct (String.eqb code "KeyK").
    + assert (JS.leb (superCooldown1 m) 0 = false) as -> by (apply JSFacts.leb_gt; lra).
      simpl. split; [done | lra].
    + simpl. split; [done | lra].
  - simpl. split; [done | lra].
  - simpl. split; [done | lra].
Qed.

Lemma cooling1_run events : forall m,
  forwardFrames events ->
  elapsedMs events < superCooldown1 m ->
  superCount "1" (sent (run options level events m)) = superCount "1" (sent m).
Proof.
  induction events as [|e events IH]; intros m Hf Hlt; [done|].
  apply Forall_cons in Hf as [Hf1 Hf].
  change (run options level (e :: events) m)
    with (run options level events (handle options level e m)).
  pose proof (elapsedMs_cons e events) as Hcons.
  pose proof (elapsedMs_nonneg events Hf) as Hpos.
  assert (match e with Frame d _ => 0 <= d | _ => True end) as He by (by destruct e).
  destruct (cooling1_handle e m He) as [Hcount Hcool]; [lra|].
  rewrite IH; [done | done | lra].
Qed.


(** One event while the AI cools down. *)
Lemma cooling2_handle e m :
  match e with Frame d _ => 0 <= d | _ => True end ->
  elapsedMs [e] < superCooldown2 m ->
  let m' := handle options level e m in
  superCount "2" (sent m') = superCount "2" (sent m)
  /\ superCooldown2 m - elapsedMs [e] <= superCooldown2 m'.
Proof.
  intros He Hlt. unfold handle. destruct (ended m).
  { cbv zeta. split; [done|]. destruct e; simpl in *; lra. }
  destruct e as [d r | [scorer | state] | code | code | key down]; cbv beta iota zeta.
  - destruct (update_wire d r m) as (p & a & -> & Hp & Ha & _ & _).
    simpl in Hlt.
    assert (superCount "2" p = 0%nat) as Hp0 by (by destruct Hp as [-> | [_ ->]]).
    rewrite !superCount_app, Hp0. simpl.
    pose proof (Math_max_lower 0 (superCooldown2 m - d)) as Hmax.
    destruct Ha as [[-> ->] | (_ & _ & [[-> ->] | (_ & _ & _ & Hz)])].
    + split; [done | lra].
    + split; [done | lra].
    + lra.
  - unfold onmessage.
    destruct (String.eqb scorer "left"); simpl; destruct (overtime m); simpl;
      (split; [done | lra]).
  - simpl. split; [done | lra].
  - simpl in *. unfold onKeyDown. destruct (String.eqb code "KeyK").
    + destruct (JS.leb (superCooldown1 m) 0 && negb (isReplay options)); simpl.
      * rewrite superCount_app. simpl. split; [lia | lra].
      * split; [done | lra].
    + simpl. split; [done | lra].
  - simpl. split; [done | lra].
  - simpl. split; [done | lra].
Qed.

Lemma cooling2_run events : forall m,
  forwardFrames events ->
  elapsedMs events < superCooldown2 m ->
  superCount "2" (sent (run options level events m)) = superCount "2" (sent m).
Proof.
  induction events as [|e events IH]; intros m Hf Hlt; [done|].
  apply Forall_cons in Hf as [Hf1 Hf].
  change (run options level (e :: events) m)
    with (run options level events (handle options level e m)).
  pose proof (elapsedMs_cons e events) as Hcons.
  pose proof (elapsedMs_nonneg events Hf) as Hpos.
  assert (match e with Frame d _ => 0 <= d | _ => True end) as He by (by destruct e).
  destruct (cooling2_handle e m He) as [Hcount Hcool]; [lra|].
  rewrite IH; [done | done | lra].
Qed.


(** *** What the page posts to the worker, and what it saves *)

Lemma replayFrames_blocks d r t ot m :
  replay options = true ->
  replayFrames (finishFrame options d
                  (aiControl options level d r
                     (sendPlayerInput options (showTimer (set_clock t ot m)))))
  = replayFrames m.
Proof.
  intros Hr.
  destruct (recView_update_blocks d r t ot m) as (Hv & _ & _).
  unfold recView in Hv. injection Hv as _ <- _.
  unfold finishFrame, isReplay. rewrite Hr. simpl.
  by repeat match goal with
            | |- context [match ?x with _ => _ end] => destruct x
            end.
Qed.

(** One event, as the worker sees it. *)
Lemma wire_handle e m :
  let m' := handle options level e m in
  exists l,
    sent m' = sent m ++ l
    /\ Forall (fun msg => addressee msg = Some "1" \/ addressee msg = Some "2") l
    /\ (aiOn options = false \/ latestState m = None ->
        Forall (fun msg => addressee msg = Some "1") l)
    /\ (replay options = true -> l = [] /\ replayFrames m' = replayFrames m)
    /\ (match e with Message (MsgState _) => False | _ => True end ->
        latestState m' = latestState m).
Proof.
  cbv zeta. unfold handle. destruct (ended m).
  { exists []. by rewrite app_nil_r. }
  destruct e as [d r | [scorer | state] | code | code | key down].
  - destruct (update_wire d r m) as (p & a & Hs & Hp & Ha & _ & Hl).
    exists (p ++ a). split; [done|].
    assert (Forall (fun msg => addressee msg = Some "1") p) as Hp1.
    { destruct Hp as [-> | [_ ->]]; [done|]. by constructor. }
    split; [|split; [|split]].
    + apply Forall_app. split; [eapply Forall_impl; [exact Hp1 | by left]|].
      destruct Ha as [[-> _] | (_ & _ & [[-> _] | [-> _]])]; [done| |].
      * constructor; [by right | done].
      * constructor; [by right|]. constructor; [by right | done].
    + intros Hoff. apply Forall_app. split; [done|].
      destruct Ha as [[-> _] | (Hon & Hsome & _)]; [done|].
      destruct Hoff as [Hoff | Hoff]; [congruence|].
      rewrite Hoff in Hsome. by destruct Hsome.
    + intros Hr. split.
      * destruct Hp as [-> | [Hr' _]]; [|congruence].
        destruct Ha as [[-> _] | (Hon & _)]; [done|].
        unfold aiOn, isReplay in Hon. rewrite Hr in Hon. done.
      * destruct (update_shape d r m) as (t & ot & [[-> _] | ->]); [|done].
        by apply replayFrames_blocks.
    + done.
  - exists []. rewrite app_nil_r. unfold onmessage.
    by destruct (String.eqb scorer "left"); simpl; destruct (overtime m).
  - exists []. by rewrite app_nil_r.
  - unfold onKeyDown, isReplay. destruct (String.eqb code "KeyK").
    + destruct (JS.leb (superCooldown1 m) 0); simpl.
      * destruct (replay options); simpl.
        -- exists []. by rewrite app_nil_r.
        -- exists [MsgSuper "1"]. split; [done|]. split; [by constructor; [left|]|].
           split; [by constructor|]. done.
      * exists []. by rewrite app_nil_r.
    + exists []. by rewrite app_nil_r.
  - exists []. by rewrite app_nil_r.
  - exists []. by rewrite app_nil_r.
Qed.

Lemma wire_run events : forall m,
  let m' := run options level events m in
  exists l,
    sent m' = sent m ++ l
    /\ Forall (fun msg => addressee msg = Some "1" \/ addressee msg = Some "2") l
    /\ (aiOn options = false -> Forall (fun msg => addressee msg = Some "1") l)
    /\ (latestState m = None -> noSnapshot events ->
        Forall (fun msg => addressee msg = Some "1") l)
    /\ (replay options = true -> l = [] /\ replayFrames m' = replayFrames m).
Proof.
  induction events as [|e events IH]; intros m; cbv zeta.
  - exists []. by rewrite app_nil_r.
  - change (run options level (e :: events) m)
      with (run options level events (handle options level e m)).
    destruct (wire_handle e m) as (l1 & Hs1 & Ha1 & Hb1 & Hc1 & Hd1).
    destruct (IH (handle options level e m)) as (l2 & Hs2 & Ha2 & Hb2 & Hc2 & Hd2).
    exists (l1 ++ l2). split; [by rewrite Hs2, Hs1, app_assoc|].
    split; [by apply Forall_app|]. split; [|split].
    + intros Hoff. apply Forall_app. split; [apply Hb1; by left | by apply Hb2].
    + intros Hnone Hno. apply Forall_cons in Hno as [Hno1 Hno].
      apply Forall_app. split; [apply Hb1; by right|].
      apply Hc2; [|done]. by rewrite Hd1.
    + intros Hr. destruct (Hc1 Hr) as [-> Hf1]. destruct (Hd2 Hr) as [-> Hf2].
      split; [done|]. by rewrite Hf2.
Qed.

(** X17.  What the page ever posts to the worker, in every run of a match:
    only input and ['super'] messages for body 1 or body 2, never
    ['reset']; nothing for body 2 when the AI is off, and nothing for body
    2 before the first snapshot has arrived; and with [options.replay] set
    nothing at all, nor is any frame recorded. *)
Theorem page_posts events :
  let m := run options level events startMatch in
  Forall (fun msg => addressee msg = Some "1" \/ addressee msg = Some "2") (sent m)
  /\ (aiOn options = false -> Forall (fun msg => addressee msg = Some "1") (sent m))
  /\ (noSnapshot events -> Forall (fun msg => addressee msg = Some "1") (sent m))
  /\ (replay options = true -> sent m = [] /\ replayFrames m = []).
Proof.
  intros m. destruct (wire_run events startMatch) as (l & Hs & Ha & Hb & Hc & Hd).
  fold m in Hs, Hd. simpl in Hs. rewrite Hs.
  split; [done|]. split; [done|]. split; [by apply Hc|].
  intros Hr. by destruct (Hd Hr) as [-> ->].
Qed.

Lemma saved_aiControl d r m : saved (aiControl options level d r m) = saved m.
Proof.
  unfold aiControl.
  repeat match goal with
         | |- context [match ?x with _ => _ end] => destruct x eqn:?
         end; simpl; congruence.
Qed.

Lemma saved_sendPlayerInput m : saved (sendPlayerInput options m) = saved m.
Proof. unfold sendPlayerInput. by destruct (negb _). Qed.

Lemma saved_handle e m :
  saved m = savedRecord options level m ->
  saved (handle options level e m) = savedRecord options level (handle options level e m).
Proof.
  intros Hinv. unfold handle. destruct (ended m) eqn:He; [done|].
  unfold savedRecord in Hinv |- *. rewrite He in Hinv. simpl in Hinv.
  destruct e as [d r | [scorer | state] | code | code | key down].
  - destruct (update_shape d r m) as (t & ot & [[-> _] | ->]).
    + destruct (recView_update_blocks d r t ot m) as (_ & _ & Hen).
      pose proof (clock_finishFrame options d
                    (aiControl options level d r
                       (sendPlayerInput options (showTimer (set_clock t ot m))))) as Hc.
      apply ended_clock in Hc. rewrite Hc, Hen, He. simpl.
      unfold finishFrame.
      repeat match goal with
             | |- context [match ?x with _ => _ end] => destruct x eqn:?
             end;
        try match goal with |- context [record ?n ?f ?m0] =>
              destruct (record_shape n f m0) as (acc & fs & ->) end;
        simpl; rewrite ?saved_aiControl, ?saved_sendPlayerInput; done.
    + unfold endMatch, isReplay. simpl. by destruct (replay options).
  - unfold onmessage, endMatch, isReplay.
    destruct (String.eqb scorer "left"); simpl; destruct (overtime m); simpl;
      rewrite ?He; by destruct (replay options).
  - simpl. by rewrite He.
  - unfold onKeyDown. destruct (String.eqb code "KeyK"); [destruct (_ && _)|];
      simpl; by rewrite He.
  - simpl. by rewrite He.
  - simpl. by rewrite He.
Qed.

(** X18.  A match is saved exactly when it has ended and is not a replay:
    in every run, the record handed to the replay store is absent while
    the match runs or when [options.replay] is set, and once the match has
    ended it holds the AI level, the final score and all the frames
    recorded. *)
Theorem saved_with_the_final_score events :
  let m := run options level events startMatch in
  saved m
  = if ended m && negb (replay options)
    then Some (mkRecord (aiLevelName options level) (scoreLeft m, scoreRight m)
                 (replayFrames m))
    else None.
Proof.
  cbv zeta. change (saved (run options level events startMatch)
                    = savedRecord options level (run options level events startMatch)).
  assert (forall m, saved m = savedRecord options level m ->
            saved (run options level events m) = savedRecord options level (run options level events m))
    as Hrun.
  { induction events as [|e events IH]; intros m Hm; [done|].
    apply (IH (handle options level e m)). by apply saved_handle. }
  by apply Hrun.
Qed.

(** *** The timer text *)

Lemma ceil_seconds t :
  0 < t ->
  (1 <= JS.Math_ceil (t / 1000))%Z
  /\ (t <= 90000 -> (JS.Math_ceil (t / 1000) <= 90)%Z).
Proof.
  intros Ht. unfold JS.Math_ceil.
  pose proof (Qle_ceiling (t / 1000)) as Hle.
  pose proof (Qceiling_lt (t / 1000)) as Hlt.
  unfold Z.sub in Hlt. rewrite inject_Z_plus in Hlt.
  change (inject_Z (- (1))) with (-1) in Hlt.
  unfold Qdiv in *. change (/ 1000) with (1 # 1000) in *.
  set (c := Qceiling (t * (1 # 1000))) in *.
  split.
  - assert (0 < inject_Z c) as Hc by lra.
    change 0 with (inject_Z 0) in Hc. rewrite <- Zlt_Qlt in Hc. lia.
  - intros Hmax. assert (inject_Z c < inject_Z 91) as Hc.
    { change (inject_Z 91) with 91. lra. }
    rewrite <- Zlt_Qlt in Hc. lia.
Qed.

Lemma timerShown_clock m m' : clock m' = clock m -> timerShown m -> timerShown m'.
Proof.
  unfold clock, timerShown, shownSeconds. intros [= _ _ Ht _ He Hx]. by rewrite Ht, He, Hx.
Qed.

Lemma timerBounded_clock m m' : clock m' = clock m -> timerBounded m -> timerBounded m'.
Proof.
  unfold clock, timerBounded, shownSeconds. intros [= _ _ Ht _ He Hx]. by rewrite Ht, He, Hx.
Qed.

Lemma showTimer_shown t ot m :
  0 < t -> ended m = false ->
  timerShown (showTimer (set_clock t ot m))
  /\ (t <= 90000 -> timerBounded (showTimer (set_clock t ot m))).
Proof.
  intros Ht He. destruct (ceil_seconds t Ht) as [H1 H90].
  unfold timerShown, timerBounded, shownSeconds, showTimer. simpl.
  set (c := JS.Math_ceil (t / 1000)) in *.
  rewrite (Z.max_r 0 c) by lia.
  pose proof (Z.mod_pos_bound c 60 ltac:(lia)) as Hmod.
  pose proof (Z.div_mod c 60 ltac:(lia)) as Hdiv.
  split.
  - split; [lia|]. split; [lia|]. intros _. split; [done | lia].
  - intros Hmax. specialize (H90 Hmax). split; [lia | done].
Qed.

Lemma timer_handle e m :
  timerShown m ->
  timerShown (handle options level e m)
  /\ (match e with Frame d _ => 0 <= d | _ => True end ->
      timerBounded m -> timerBounded (handle options level e m)).
Proof.
  intros Hsh. unfold handle. destruct (ended m) eqn:He; [done|].
  assert (forall m', clock m' = clock m ->
            timerShown m' /\ (timerBounded m -> timerBounded m')) as Hsame.
  { intros m' Hc. split; [by apply (timerShown_clock m) | by apply timerBounded_clock]. }
  destruct e as [d r | [scorer | state] | code | code | key down].
  - pose proof (clock_update options level d r m) as Hc.
    unfold afterTimer, countDown in Hc. simpl in Hc.
    destruct Hsh as (Hs1 & Hs2 & Hs3). destruct (Hs3 He) as [Hpos Hceil].
    set (t := timeLeftMs m - d) in *.
    assert (forall t' ot,
              0 < t' -> (0 <= d -> timeLeftMs m <= 90000 -> t' <= 90000) ->
              clock (update options level d r m)
              = clock (showTimer (set_clock t' ot m)) ->
              timerShown (update options level d r m)
              /\ (0 <= d -> timerBounded m -> timerBounded (update options level d r m)))
      as Hshow.
    { intros t' ot Ht' Hmax Hc'. destruct (showTimer_shown t' ot m Ht' He) as [Ha Hb].
      split; [by apply (timerShown_clock _ _ Hc')|].
      intros Hd [_ Hbm]. apply (timerBounded_clock _ _ Hc'). apply Hb.
      apply Hmax; [done | by apply Hbm]. }
    assert (forall ot,
              clock (update options level d r m)
              = clock (endMatch options level (set_clock t ot m)) ->
              timerShown (update options level d r m)
              /\ (0 <= d -> timerBounded m -> timerBounded (update options level d r m)))
      as Hend.
    { intros ot Hc'. unfold clock in Hc'. simpl in Hc'.
      injection Hc' as _ _ Ht' _ He' Hx'.
      unfold timerShown, timerBounded, shownSeconds in *. rewrite He', Hx'.
      split; [done|]. intros _ [Hb _]. done. }
    destruct (overtime m) eqn:Ho; simpl in Hc;
      destruct (JS.leb t 0) eqn:Ht; simpl in Hc.
    + rewrite ?Ho in Hc. simpl in Hc. by apply (Hend true).
    + rewrite ?Ho in Hc. simpl in Hc. apply JSFacts.leb_gt in Ht.
      apply (Hshow t true); [done | subst t; intros; lra | done].
    + destruct (scoreLeft m =? scoreRight m)%Z; simpl in Hc.
      * apply (Hshow (30 * 1000) true); [done | intros; lra | done].
      * rewrite ?Ho in Hc. simpl in Hc. by apply (Hend false).
    + rewrite ?Ho in Hc. simpl in Hc. apply JSFacts.leb_gt in Ht.
      apply (Hshow t false); [done | subst t; intros; lra | done].
  - assert (timerShown (onmessage options level (MsgGoal scorer) m)
            /\ (timerBounded m -> timerBounded (onmessage options level (MsgGoal scorer) m)))
      as [H1 H2]; [|by split; [|intros _]].
    destruct Hsh as (Hs1 & Hs2 & Hs3).
    unfold onmessage, timerShown, timerBounded, shownSeconds.
    destruct (String.eqb scorer "left"); simpl; destruct (overtime m); simpl;
      (split; [split; [done|]; split; [done|]; first [exact Hs3 | done]
              | intros [Hb1 Hb2]; split; [done|]; first [exact Hb2 | done]]).
  - destruct (Hsame (onmessage options level (MsgState state) m)) as [H1 H2]; [done|].
    by split; [|intros _].
  - destruct (Hsame (onKeyDown options code m)) as [H1 H2].
    { unfold onKeyDown. by destruct (String.eqb code "KeyK"); [destruct (_ && _)|]. }
    by split; [|intros _].
  - destruct (Hsame (onKeyUp code m)) as [H1 H2]; [done|]. by split; [|intros _].
  - destruct (Hsame (set_playerInput (press key down (playerInput m)) m)) as [H1 H2];
      [done|]. by split; [|intros _].
Qed.

Lemma timer_run events : forall m,
  timerShown m ->
  timerShown (run options level events m)
  /\ (forwardFrames events -> timerBounded m ->
      timerBounded (run options level events m)).
Proof.
  induction events as [|e events IH]; intros m Hsh; [done|].
  change (run options level (e :: events) m)
    with (run options level events (handle options level e m)).
  destruct (timer_handle e m Hsh) as [H1 H2].
  destruct (IH _ H1) as [H3 H4]. split; [done|].
  intros Hf Hb. apply Forall_cons in Hf as [Hf1 Hf]. apply H4; [done|].
  apply H2; [by destruct e | done].
Qed.

(** X19.  The timer text, in every run of a match: the seconds field is in
    [0, 60); the text never shows 0:00, since a frame that brings the
    remaining time to zero or below either starts Overtime or ends the
    match before the text is written; while the match runs the text shows
    the remaining time in whole seconds, rounded up; and when no frame has
    negative time it never shows more than 1:30. *)
Theorem timer_text events :
  let m := run options level events startMatch in
  (0 <= snd (timerText m) < 60)%Z
  /\ (1 <= shownSeconds m)%Z
  /\ (ended m = false -> shownSeconds m = JS.Math_ceil (timeLeftMs m / 1000))
  /\ (forwardFrames events -> (shownSeconds m <= 90)%Z).
Proof.
  intros m.
  assert (timerShown startMatch) as H0.
  { unfold timerShown, shownSeconds. simpl. split; [lia|]. split; [lia|].
    intros _. split; [lra|]. by vm_compute. }
  assert (timerBounded startMatch) as Hb.
  { unfold timerBounded, shownSeconds. simpl. split; [lia|]. intros _. lra. }
  destruct (timer_run events startMatch H0) as [(H1 & H2 & H3) H4]. fold m in H1, H2, H3, H4.
  split; [done|]. split; [done|]. split; [intros He; by destruct (H3 He)|].
  intros Hf. by destruct (H4 Hf Hb).
Qed.

End Rules.




End MatchFacts.

(** ** Layout, menu and settings *)

Module CameraFacts.
Import Camera.

Lemma computeScale_pos width height :
  0 < width -> 0 < height ->
  0 < scale (computeScale width height)
  /\ WORLD_WIDTH * scale (computeScale width height) <= width.
Proof.
  intros Hw Hh. unfold computeScale, WORLD_WIDTH, WORLD_HEIGHT. simpl.
  unfold Qdiv. change (/ 10) with (1 # 10). change (/ 5) with (1 # 5).
  destruct (JSFacts.Math_min_spec (width * (1 # 10)) (height * (1 # 5)))
    as [[H ->] | [H ->]]; split; lra.
Qed.

(** The half view is at least half the world. *)
Lemma halfView_large width height :
  0 < width -> 0 < height ->
  WORLD_WIDTH / 2 <= width / scale (computeScale width height) / 2.
Proof.
  intros Hw Hh. destruct (computeScale_pos width height Hw Hh) as [Hs Hle].
  set (s := scale (computeScale width height)) in *.
  assert (WORLD_WIDTH <= width / s) as H by (by apply Qle_shift_div_l).
  unfold Qdiv in *. change (/ 2) with (1 # 2). lra.
Qed.

Lemma twice_arith w s :
  0 < s ->
  (w - 10 * s) / 2 + (10 / 2 - (10 - w / s / 2)) * s == 2 * ((w - 10 * s) / 2).
Proof. intros Hs. field. lra. Qed.

Lemma offsetX_twice width height :
  0 < width -> 0 < height ->
  let l := computeScale width height in
  offsetX l + (WORLD_WIDTH / 2 - (WORLD_WIDTH - width / scale l / 2)) * scale l
  == 2 * offsetX l.
Proof.
  intros Hw Hh l. destruct (computeScale_pos width height Hw Hh) as [Hs _].
  exact (twice_arith width (scale l) Hs).
Qed.





End CameraFacts.

Module MenuFacts.
Import Menu.

(** X22.  The difficulty button only ever selects a level that has a
    profile: from each level of the ladder it moves to the next one and
    from the last back to the first, from any other text it moves to
    ['Rookie'], and the level it selects always has an entry in the
    profile table, which is the profile a match started from the menu
    uses. *)
Theorem difficulty_cycles selectedAILevel :
  exists level,
    cycleDifficulty selectedAILevel = Some level
    /\ level ∈ Match.aiLevels
    /\ Match.aiProfiles !! level
       = Some (Match.aiProfile (Match.menuOptions level) selectedAILevel)
    /\ (selectedAILevel ∉ Match.aiLevels -> level = "Rookie")
    /\ (forall i : nat,
          Match.aiLevels !! i = Some selectedAILevel ->
          Match.aiLevels !! ((i + 1) mod 5)%nat = Some level).
Proof.
  unfold cycleDifficulty, Match.aiLevels.
  destruct (String.eqb_spec "Rookie" selectedAILevel) as [<- | H1].
  { exists "Amateur". split; [reflexivity|]. split; [set_solver|]. split; [reflexivity|].
    split; [set_solver|]. intros [|[|[|[|[|i]]]]] Hi; by inversion Hi. }
  destruct (String.eqb_spec "Amateur" selectedAILevel) as [<- | H2].
  { exists "Pro". split; [reflexivity|]. split; [set_solver|]. split; [reflexivity|].
    split; [set_solver|]. intros [|[|[|[|[|i]]]]] Hi; by inversion Hi. }
  destruct (String.eqb_spec "Pro" selectedAILevel) as [<- | H3].
  { exists "Elite". split; [reflexivity|]. split; [set_solver|]. split; [reflexivity|].
    split; [set_solver|]. intros [|[|[|[|[|i]]]]] Hi; by inversion Hi. }
  destruct (String.eqb_spec "Elite" selectedAILevel) as [<- | H4].
  { exists "Legend". split; [reflexivity|]. split; [set_solver|]. split; [reflexivity|].
    split; [set_solver|]. intros [|[|[|[|[|i]]]]] Hi; by inversion Hi. }
  destruct (String.eqb_spec "Legend" selectedAILevel) as [<- | H5].
  { exists "Rookie". split; [reflexivity|]. split; [set_solver|]. split; [reflexivity|].
    split; [set_solver|]. intros [|[|[|[|[|i]]]]] Hi; by inversion Hi. }
  exists "Rookie". cbn [indexOf].
  apply String.eqb_neq in H1, H2, H3, H4, H5. rewrite H1, H2, H3, H4, H5. simpl.
  split; [reflexivity|]. split; [set_solver|]. split; [reflexivity|].
  split; [done|].
  apply String.eqb_neq in H1, H2, H3, H4, H5.
  intros [|[|[|[|[|i]]]]] Hi; inversion Hi; congruence.
Qed.

(** X23.  The opponent's picture: for each of the six characters the
    opponent's texture index differs from the player's, yet the two files
    are the same for the characters 1, 2, 4 and 5 (counted from 0),
    because the fifth and sixth entries reuse the files of the second and
    third; only for the characters 0 and 3 do the two players look
    different. *)
Theorem opponent_picture characterIndex :
  (characterIndex < 6)%nat ->
  ((characterIndex + 3) mod length characterTextures)%nat <> characterIndex
  /\ is_Some (p1Tex characterIndex) /\ is_Some (p2Tex characterIndex)
  /\ (p1Tex characterIndex = p2Tex characterIndex
      <-> characterIndex <> 0%nat /\ characterIndex <> 3%nat).
Proof.
  intros H.
  destruct characterIndex as [|[|[|[|[|[|n]]]]]]; [..|lia];
    (split; [vm_compute; lia|]); (split; [by eexists|]); (split; [by eexists|]);
    (split;
     [ intros E; first [ discriminate E | split; lia ]
     | intros [H0 H3]; first [ reflexivity | lia ] ]).
Qed.

Lemma opponent_picture_witness :
  ((1 + 3) mod length characterTextures)%nat <> 1%nat
  /\ is_Some (p1Tex 1) /\ is_Some (p2Tex 1)
  /\ (p1Tex 1 = p2Tex 1 <-> 1%nat <> 0%nat /\ 1%nat <> 3%nat).
Proof. apply (opponent_picture 1). lia. Defined.

End MenuFacts.

Module SettingsFacts.
Import Settings.

Lemma indexOf_range l name :
  (-1 <= Menu.indexOf l name < Z.of_nat (length l))%Z.
Proof.
  induction l as [|x l IH]; simpl; [lia|].
  destruct (String.eqb x name); [lia|].
  destruct (Menu.indexOf l name <? 0)%Z eqn:E; [lia|]. apply Z.ltb_ge in E. lia.
Qed.

(** The three names are told apart by [indexOf], and none is empty. *)
Lemma indexOf_names i name :
  names !! i = Some name ->
  Menu.indexOf names name = Z.of_nat i /\ String.eqb name "" = false.
Proof.
  destruct i as [|[|[|i]]]; intros [= <-]; by vm_compute.
Qed.

Lemma showSettings_index localStorage :
  (0 <= currentIndex (showSettings localStorage) < 3)%Z.
Proof.
  unfold showSettings. cbn [currentIndex].
  pose proof (indexOf_range names (getItemOr localStorage "gfxQuality" "Высокое")) as H.
  change (Z.of_nat (length names)) with 3%Z in H.
  destruct (Menu.indexOf names _ <? 0)%Z eqn:E; [lia|]. apply Z.ltb_ge in E. lia.
Qed.

(** What holds of the overlay after a click. *)
Lemma onclick_spec o :
  (0 <= currentIndex o)%Z ->
  (0 <= currentIndex (onclick o) < 3)%Z
  /\ currentIndex (onclick o) = ((currentIndex o + 1) mod 3)%Z
  /\ localStorage (onclick o) !! "gfxQuality"
     = names !! Z.to_nat (currentIndex (onclick o)).
Proof.
  intros H0. unfold onclick. cbn [currentIndex localStorage].
  change (Z.of_nat (length names)) with 3%Z.
  rewrite Z.rem_mod_nonneg by lia.
  pose proof (Z.mod_pos_bound (currentIndex o + 1) 3 ltac:(lia)) as Hm.
  split; [lia|]. split; [done|]. rewrite lookup_insert.
  set (i := ((currentIndex o + 1) mod 3)%Z) in *.
  assert (i = 0 \/ i = 1 \/ i = 2)%Z as [-> | [-> | ->]] by lia; reflexivity.
Qed.

Lemma clicks_spec k : forall o,
  (0 <= currentIndex o < 3)%Z ->
  (0 <= currentIndex (clicks k o) < 3)%Z
  /\ currentIndex (clicks k o) = ((currentIndex o + Z.of_nat k) mod 3)%Z
  /\ ((1 <= k)%nat ->
      localStorage (clicks k o) !! "gfxQuality"
      = names !! Z.to_nat (currentIndex (clicks k o))).
Proof.
  induction k as [|k IH]; intros o Ho.
  - simpl. split; [done|]. split; [|lia]. rewrite Z.add_0_r, Z.mod_small; lia.
  - cbn [clicks]. destruct (onclick_spec o ltac:(lia)) as (H1 & H2 & H3).
    destruct (IH (onclick o) H1) as (G1 & G2 & G3).
    split; [done|]. split.
    + rewrite G2, H2, Zplus_mod_idemp_l. f_equal. lia.
    + intros _. destruct k as [|k]; [exact H3 | apply G3; lia].
Qed.

(** X24.  The quality chosen in the settings overlay: after [k >= 1] clicks
    on the quality button the index shown has moved [k] steps round the
    three names from the one the overlay opened with, the name shown is
    the one stored, closing the overlay hands exactly that index to the
    next match, whatever was stored or desired before, and opening the
    overlay again shows it again. *)
Theorem quality_setting_round_trip storage desired k :
  (1 <= k)%nat ->
  let o := clicks k (showSettings storage) in
  (0 <= currentIndex o < 3)%Z
  /\ currentIndex o
     = ((currentIndex (showSettings storage) + Z.of_nat k) mod 3)%Z
  /\ localStorage o !! "gfxQuality" = names !! Z.to_nat (currentIndex o)
  /\ close o desired = Some (currentIndex o)
  /\ qualityIndex (startQuality (close o desired)) = currentIndex o
  /\ currentIndex (showSettings (localStorage o)) = currentIndex o.
Proof.
  intros Hk o.
  destruct (clicks_spec k (showSettings storage) (showSettings_index storage))
    as (H1 & H2 & H3). fold o in H1, H2, H3. specialize (H3 Hk).
  destruct (lookup_lt_is_Some_2 names (Z.to_nat (currentIndex o))) as [name Hn].
  { change (length names) with 3%nat. lia. }
  destruct (indexOf_names _ _ Hn) as [Hi He]. rewrite Z2Nat.id in Hi by lia.
  rewrite Hn in H3.
  assert (close o desired = Some (currentIndex o)) as Hc.
  { unfold close, applySettingsFromStorage. rewrite H3, He, Hi.
    destruct (0 <=? currentIndex o)%Z eqn:E; [done|]. apply Z.leb_gt in E. lia. }
  split; [done|]. split; [done|]. split; [by rewrite H3|]. split; [done|].
  split; [by rewrite Hc|].
  unfold showSettings, getItemOr. cbn [currentIndex]. rewrite H3, He, Hi.
  destruct (currentIndex o <? 0)%Z eqn:E; [|done]. apply Z.ltb_lt in E. lia.
Qed.

Lemma quality_setting_round_trip_witness :
  let o := clicks 2 (showSettings ∅) in
  (0 <= currentIndex o < 3)%Z
  /\ currentIndex o = ((currentIndex (showSettings ∅) + Z.of_nat 2) mod 3)%Z
  /\ localStorage o !! "gfxQuality" = names !! Z.to_nat (currentIndex o)
  /\ close o None = Some (currentIndex o)
  /\ qualityIndex (startQuality (close o None)) = currentIndex o
  /\ currentIndex (showSettings (localStorage o)) = currentIndex o.
Proof. apply (quality_setting_round_trip ∅ None 2). lia. Defined.

Lemma pressQ_spec q :
  (0 <= qualityIndex q)%Z ->
  (0 <= qualityIndex (pressQ q) < 3)%Z
  /\ qualityIndex (pressQ q) = ((qualityIndex q + 1) mod 3)%Z
  /\ resolution (pressQ q) = qualityLevels !! Z.to_nat (qualityIndex (pressQ q)).
Proof.
  intros H0. unfold pressQ. cbn [qualityIndex resolution].
  change (Z.of_nat (length qualityLevels)) with 3%Z.
  rewrite Z.rem_mod_nonneg by lia.
  pose proof (Z.mod_pos_bound (qualityIndex q + 1) 3 ltac:(lia)). done.
Qed.

Lemma pressesQ_spec k : forall q,
  (0 <= qualityIndex q < 3)%Z ->
  (0 <= qualityIndex (pressesQ k q) < 3)%Z
  /\ qualityIndex (pressesQ k q) = ((qualityIndex q + Z.of_nat k) mod 3)%Z
  /\ ((1 <= k)%nat ->
      resolution (pressesQ k q)
      = qualityLevels !! Z.to_nat (qualityIndex (pressesQ k q))).
Proof.
  induction k as [|k IH]; intros q Hq.
  - simpl. split; [done|]. split; [|lia]. rewrite Z.add_0_r, Z.mod_small; lia.
  - cbn [pressesQ]. destruct (pressQ_spec q ltac:(lia)) as (H1 & H2 & H3).
    destruct (IH (pressQ q) H1) as (G1 & G2 & G3).
    split; [done|]. split.
    + rewrite G2, H2, Zplus_mod_idemp_l. f_equal. lia.
    + intros _. destruct k as [|k]; [exact H3 | apply G3; lia].
Qed.



End SettingsFacts.
